(** * node-soap HTTP client (lib/http.js): request building, envelope
      extraction and MTOM attachment parsing

    A shallow embedding of [HttpClient.prototype.buildRequest],
    [handleResponse], [handleBinaries] and [request], together with the
    fragment of ECMAScript regular expressions that their five pattern
    literals use. *)

From Stdlib Require Import NArith ZArith List Bool Lia String Ascii DecimalPos.
From stdpp Require Import gmap.
Import ListNotations.

Local Open Scope N_scope.

(** ** JavaScript strings

    A JavaScript string is a finite sequence of UTF-16 code units.  A code
    unit is an [N]; literals are written [js "text"]. *)

Abbreviation jsstring := (list N).

Definition js (s : string) : jsstring :=
  List.map N_of_ascii (list_ascii_of_string s).

(** The double quote, which a string literal of this file cannot hold. *)
Definition dq : jsstring := [34].

Definition is_word (c : N) : bool :=
  ((48 <=? c) && (c <=? 57)) || ((65 <=? c) && (c <=? 90))
  || (c =? 95) || ((97 <=? c) && (c <=? 122)).

(** [\s]: WhiteSpace and LineTerminator of ECMAScript 2016 and later. *)
Definition is_space (c : N) : bool :=
  ((9 <=? c) && (c <=? 13)) || (c =? 32) || (c =? 160) || (c =? 5760)
  || ((8192 <=? c) && (c <=? 8202)) || (c =? 8232) || (c =? 8233)
  || (c =? 8239) || (c =? 8287) || (c =? 12288) || (c =? 65279).

Definition is_line_terminator (c : N) : bool :=
  (c =? 10) || (c =? 13) || (c =? 8232) || (c =? 8233).

Definition ascii_upper (c : N) : N :=
  if (97 <=? c) && (c <=? 122) then c - 32 else c.

(** ** Regular expressions: the fragment used by lib/http.js *)

Inductive class_atom :=
| CChar (c : N)     (* a literal character *)
| CWord             (* \w *)
| CSpace            (* \s *)
| CNonSpace.        (* \S *)

Record charclass := { negated : bool; atoms : list class_atom }.

Inductive regex :=
| Lit (l : jsstring)            (* a run of literal characters *)
| Star (c : charclass)          (* [...]*  greedy *)
| Cat (r1 r2 : regex)
| Opt (r : regex)               (* (?:r)?  greedy *)
| Cap (n : nat) (r : regex)     (* the n-th capturing group *)
| NCap (r : regex)              (* (?:r) *)
| Ref (n : nat)                 (* \n *)
| Bol                           (* ^ *)
| Eol.                          (* $ *)

(** The number of capturing groups of a pattern. *)
Fixpoint ngroups (r : regex) : nat :=
  match r with
  | Cat r1 r2 => ngroups r1 + ngroups r2
  | Opt r1 | NCap r1 => ngroups r1
  | Cap _ r1 => S (ngroups r1)
  | Lit _ | Star _ | Ref _ | Bol | Eol => 0
  end.

Record flags := { ignoreCase : bool; multiline : bool }.

(** A matcher state: the character before the current position, the input
    from the current position on, and the captures made so far. *)
Record state := { prev : option N; rest : jsstring; caps : list (nat * jsstring) }.

Record match_result :=
  { index : nat; matched : jsstring; captures : list (nat * jsstring) }.

Fixpoint lookup_cap (n : nat) (cs : list (nat * jsstring)) : option jsstring :=
  match cs with
  | [] => None
  | (k, v) :: cs' => if Nat.eqb k n then Some v else lookup_cap n cs'
  end.

(** [m[n]] of a match array, for [n >= 1]. *)
Definition group (n : nat) (m : match_result) : option jsstring :=
  lookup_cap n (captures m).


(** ** JavaScript values, objects and exceptions *)

(** The values that reach this module: a payload is a string or an object,
    a header value is a string or a number, and an attachment field is
    [null], [undefined] or a string.  An object other than the ones built
    here is known by its identity only. *)
Inductive jsval :=
| VUndefined
| VNull
| VBool (b : bool)
| VNum (n : Z)
| VStr (s : jsstring)
| VObject (id : nat).

Inductive error := TypeError.

Inductive result (A : Type) :=
| Ok (a : A)
| Throw (e : error).
Arguments Ok {A} a.
Arguments Throw {A} e.

Definition bind {A B : Type} (x : result A) (f : A -> result B) : result B :=
  match x with
  | Ok a => f a
  | Throw e => Throw e
  end.

Notation "'try!' x ':=' c1 'in' c2" := (bind c1 (fun x => c2))
  (at level 10, x name, c1 at level 100, c2 at level 200).

(** ToBoolean. *)
Definition truthy (v : jsval) : bool :=
  match v with
  | VUndefined | VNull => false
  | VBool b => b
  | VNum n => negb (Z.eqb n 0)
  | VStr s => negb (Nat.eqb (length s) 0)
  | VObject _ => true
  end.

(** [{mime: ..., data: ...}] *)
Record attachment := { mime : jsval; data : jsval }.

(** The object [binaries] of [handleBinaries]: its own properties, and the
    object that a write to the key [__proto__] has put in the place of its
    prototype, if any ([None]: the prototype is still [Object.prototype]). *)
Record binaries_obj := { own : gmap jsstring attachment; proto : option attachment }.

(** The response object [res], as far as this module reads and writes it. *)
Record response := { headers : gmap jsstring jsstring; binaries : option binaries_obj }.

(** The object that [url.parse] returns; an absent component is [null]. *)
Record url_object :=
  { protocol : option jsstring; hostname : option jsstring; port : option jsstring;
    pathname : option jsstring; search : option jsstring; hash : option jsstring }.

(** A value of the options object handed to the [request] module. *)
Inductive optval :=
| OUri (u : url_object)
| OHeaders (h : gmap jsstring jsval)
| OVal (v : jsval).

(** The names that a plain object inherits from [Object.prototype]; each is
    bound to a function object. *)
Definition object_prototype_names : list jsstring :=
  List.map js
    ["constructor"; "hasOwnProperty"; "isPrototypeOf"; "propertyIsEnumerable";
     "toLocaleString"; "toString"; "valueOf"; "__defineGetter__";
     "__defineSetter__"; "__lookupGetter__"; "__lookupSetter__"]%string.

Definition jsstring_eqb (a b : jsstring) : bool := bool_decide (a = b).

Definition mem (k : jsstring) (l : list jsstring) : bool :=
  existsb (jsstring_eqb k) l.

(** [res['binaries'] = b] *)
Definition set_binaries (res : response) (b : binaries_obj) : response :=
  {| headers := headers res; binaries := Some b |}.

(** ** String.prototype functions *)

Fixpoint starts_with (sep s : jsstring) : bool :=
  match sep with
  | [] => true
  | a :: sep' =>
      match s with
      | [] => false
      | c :: s' => (a =? c) && starts_with sep' s'
      end
  end.

(** [s.indexOf(sep) != -1] *)
Fixpoint includes (sep s : jsstring) : bool :=
  starts_with sep s ||
  match s with
  | [] => false
  | _ :: s' => includes sep s'
  end.

(** [split_at sep skip acc s]: [acc] holds, reversed, the part being read;
    [skip] counts the characters of a separator still to be passed over. *)
Fixpoint split_at (sep : jsstring) (skip : nat) (acc s : jsstring) : list jsstring :=
  match s with
  | [] => [rev acc]
  | c :: s' =>
      match skip with
      | S k => split_at sep k acc s'
      | O =>
          if starts_with sep s
          then rev acc :: split_at sep (length sep - 1) [] s'
          else split_at sep 0 (c :: acc) s'
      end
  end.

(** [s.split(sep)] for a string [sep]: the empty separator splits between
    all code units. *)
Definition split (sep s : jsstring) : list jsstring :=
  match sep with
  | [] => List.map (fun c => [c]) s
  | _ => split_at sep 0 [] s
  end.

(** [parts.join(sep)] *)
Fixpoint join (sep : jsstring) (parts : list jsstring) : jsstring :=
  match parts with
  | [] => []
  | [x] => x
  | x :: parts' => x ++ sep ++ join sep parts'
  end.

(** ** Numbers and objects in buildRequest *)

Definition is_digit (c : N) : bool := (48 <=? c) && (c <=? 57).

Fixpoint skip_space (s : jsstring) : jsstring :=
  match s with
  | c :: s' => if is_space c then skip_space s' else s
  | [] => []
  end.

Fixpoint digits_value (acc : Z) (s : jsstring) : Z :=
  match s with
  | c :: s' =>
      if is_digit c then digits_value (10 * acc + Z.of_N (c - 48)) s' else acc
  | [] => acc
  end.

(** [parseInt(s, 10)]: the integer that the sign and the digits denote;
    [None] is NaN.  The Number that JavaScript returns is this integer when
    its absolute value is at most 2^53, and the double that the engine
    takes for it otherwise; [number_to_string] keeps the two cases apart. *)
Definition parseInt (s : jsstring) : option Z :=
  let s := skip_space s in
  let '(sign, s) := match s with
                    | 45 :: s' => ((-1)%Z, s')
                    | 43 :: s' => (1%Z, s')
                    | _ => (1%Z, s)
                    end in
  match s with
  | c :: _ => if is_digit c then Some (sign * digits_value 0 s)%Z else None
  | [] => None
  end.

Fixpoint uint_chars (d : Decimal.uint) : jsstring :=
  match d with
  | Decimal.Nil => []
  | Decimal.D0 d' => 48 :: uint_chars d'
  | Decimal.D1 d' => 49 :: uint_chars d'
  | Decimal.D2 d' => 50 :: uint_chars d'
  | Decimal.D3 d' => 51 :: uint_chars d'
  | Decimal.D4 d' => 52 :: uint_chars d'
  | Decimal.D5 d' => 53 :: uint_chars d'
  | Decimal.D6 d' => 54 :: uint_chars d'
  | Decimal.D7 d' => 55 :: uint_chars d'
  | Decimal.D8 d' => 56 :: uint_chars d'
  | Decimal.D9 d' => 57 :: uint_chars d'
  end.

(** The decimal numeral of an integer. *)
Definition decimal (n : Z) : jsstring :=
  match n with
  | Z0 => js "0"
  | Zpos p => uint_chars (Pos.to_uint p)
  | Zneg p => js "-" ++ uint_chars (Pos.to_uint p)
  end.

(** The integers up to [exact_limit] in absolute value are Numbers. *)
Definition exact_limit : Z := 2 ^ 53.

(** ToString of the Number that [parseInt] returns for the integer [n]: its
    decimal numeral when [n] is a Number; beyond that the engine rounds [n]
    to a double and prints it, in exponent form from 1e21 on, which is left
    to [beyond]. *)
Definition number_to_string (beyond : Z -> jsstring) (n : Z) : jsstring :=
  if (Z.abs n <=? exact_limit)%Z then decimal n else beyond n.

(** ToString of a string or [null]. *)
Definition to_string (x : option jsstring) : jsstring :=
  match x with
  | Some s => s
  | None => js "null"
  end.

(** [x || d] for a string or [null] [x]. *)
Definition or_else (x : option jsstring) (d : jsstring) : jsstring :=
  match x with
  | Some (c :: s) => c :: s
  | _ => d
  end.

(** [Buffer.byteLength(s, 'utf8')]: a surrogate pair takes four bytes, a
    lone surrogate is written as U+FFFD. *)
Fixpoint byteLength (s : jsstring) : nat :=
  match s with
  | [] => 0
  | c :: t =>
      if c <? 128 then 1 + byteLength t
      else if c <? 2048 then 2 + byteLength t
      else match t with
           | c' :: t' =>
               if (55296 <=? c) && (c <=? 56319) && (56320 <=? c') && (c' <=? 57343)
               then 4 + byteLength t'
               else 3 + byteLength t
           | [] => 3
           end
  end.

(** [x === 'text'] for a property [x] of an object. *)
Definition is_string (text : jsstring) (x : option jsval) : bool :=
  match x with
  | Some (VStr s) => jsstring_eqb s text
  | _ => false
  end.

(** [o[k] = v] on a plain object: the key [__proto__] is an accessor of
    [Object.prototype], and a write to it creates no property. *)
Definition set_prop {A : Type} (k : jsstring) (v : A) (o : gmap jsstring A)
  : gmap jsstring A :=
  if jsstring_eqb k (js "__proto__") then o else <[k := v]> o.

(** [src = src || {}; for (attr in src) dst[attr] = src[attr]] *)
Definition assign_all {A : Type} (src : option (gmap jsstring A)) (dst : gmap jsstring A)
  : gmap jsstring A :=
  match src with
  | Some src => map_fold set_prop dst src
  | None => dst
  end.


(** [o[k]] for an optional argument [o]; an argument left out has no
    property. *)
Definition get {A : Type} (k : jsstring) (o : option (gmap jsstring A)) : option A :=
  match o with
  | Some m => m !! k
  | None => None
  end.

(** [options.headers[k]] of a built request. *)
Definition header (k : jsstring) (options : gmap jsstring optval) : option jsval :=
  match options !! js "headers" with
  | Some (OHeaders h) => h !! k
  | _ => None
  end.

(** What [url.parse('http://h:8080/p')] returns in Node.js. *)
Definition url_h_8080 : url_object :=
  {| protocol := Some (js "http:"); hostname := Some (js "h"); port := Some (js "8080");
     pathname := Some (js "/p"); search := None; hash := None |}.

(** ** Positions in an input *)

(** The character before position [k] of [s], when [p] is the one before
    position 0. *)
Fixpoint prev_at (p : option N) (s : jsstring) (k : nat) : option N :=
  match k, s with
  | S k', c :: s' => prev_at (Some c) s' k'
  | _, _ => p
  end.

(** The state in which a match is tried at position [k] of [s]. *)
Definition state_at (p : option N) (s : jsstring) (cs : list (nat * jsstring)) (k : nat)
  : state :=
  {| prev := prev_at p s k; rest := drop k s; caps := cs |}.

(** [u] extends the input of [a] to the input of [b]. *)
Definition ext (u : jsstring) (a b : state) : Prop :=
  rest b = rest a ++ u /\ caps b = caps a.

(** A state of the extended input that lies within the input itself. *)
Definition keeps (u : jsstring) (x : state) : bool :=
  Nat.leb (length u) (length (rest x)).

Fixpoint anchor_free (r : regex) : bool :=
  match r with
  | Lit _ | Star _ | Ref _ => true
  | Cat r1 r2 => anchor_free r1 && anchor_free r2
  | Opt r1 | Cap _ r1 | NCap r1 => anchor_free r1
  | Bol | Eol => false
  end.

(** ** The pattern literals of lib/http.js *)

Infix "+++" := Cat (right associativity, at level 60).

Definition cls (l : list class_atom) : charclass := {| negated := false; atoms := l |}.
Definition cls_not (l : list class_atom) : charclass := {| negated := true; atoms := l |}.

Definition chr (a : ascii) : class_atom := CChar (N_of_ascii a).

Record regexp := { pattern : regex; reflags : flags }.

(** Line 109, flag i; with spaces added between the groups:
    (?:boundary=) ( [\w-]* ) (?:;) *)
Definition bou_regex : regexp :=
  {| pattern := NCap (Lit (js "boundary=")) +++ Cap 1 (Star (cls [CWord; chr "-"]))
                +++ NCap (Lit (js ";"));
     reflags := {| ignoreCase := true; multiline := false |} |}.

(** Line 117, flags g and i; with spaces added between the groups:
    (?:<xop\:Include href="cid\:) ( [\w@\.-]* ) (?:"><\/xop\:Include>)
    The literal is evaluated anew at each call, so its [lastIndex] is 0 and
    the one call of [exec] reports the first occurrence. *)
Definition inc_regex : regexp :=
  {| pattern := NCap (Lit (js "<xop:Include href=" ++ dq ++ js "cid:"))
                +++ Cap 1 (Star (cls [CWord; chr "@"; chr "."; chr "-"]))
                +++ NCap (Lit (dq ++ js "></xop:Include>"));
     reflags := {| ignoreCase := true; multiline := false |} |}.

(** Line 136, flag m; with spaces added between the groups:
    ^ (?:Content-Id: <) ( [\w\/\.@-]* ) (?:>) $ *)
Definition id_regex : regexp :=
  {| pattern := Bol +++ NCap (Lit (js "Content-Id: <"))
                +++ Cap 1 (Star (cls [CWord; chr "/"; chr "."; chr "@"; chr "-"]))
                +++ NCap (Lit (js ">")) +++ Eol;
     reflags := {| ignoreCase := false; multiline := true |} |}.

(** Line 137, flag m; with spaces added between the groups:
    ^ (?:Content-Type: ) ( [\w\/+-]* ) $ *)
Definition mim_regex : regexp :=
  {| pattern := Bol +++ NCap (Lit (js "Content-Type: "))
                +++ Cap 1 (Star (cls [CWord; chr "/"; chr "+"; chr "-"])) +++ Eol;
     reflags := {| ignoreCase := false; multiline := true |} |}.

(** The end of the envelope pattern: the closing tag with the prefix that
    the first group has captured. *)
Definition env_close : regex := Lit (js "</") +++ Ref 1 +++ Lit (js ":Envelope>").

(** Line 95, flag i; with spaces added between the groups:
    (?: <\? [^?]* \?> [\s]* )? < ( [^:]* ) :Envelope ( [\S\s]* ) <\/ \1 :Envelope> *)
Definition env_regex : regexp :=
  {| pattern := Opt (Lit (js "<?") +++ Star (cls_not [chr "?"]) +++ Lit (js "?>")
                     +++ Star (cls [CSpace]))
                +++ Lit (js "<") +++ Cap 1 (Star (cls_not [chr ":"]))
                +++ Lit (js ":Envelope") +++ Cap 2 (Star (cls [CNonSpace; CSpace]))
                +++ Lit (js "</") +++ Ref 1 +++ Lit (js ":Envelope>");
     reflags := {| ignoreCase := true; multiline := false |} |}.


(** The line ends ['\r\n'] and ['\n']. *)
Definition crlf : jsstring := [13; 10].
Definition lf : jsstring := [10].

(** ** Sample responses *)

(** A response that carries the Content-Type header [ctype] and no
    attachment map yet. *)
Definition response_with (ctype : jsstring) : response :=
  {| headers := {[ js "content-type" := ctype ]}; binaries := None |}.

Definition xop_include (id : jsstring) : jsstring :=
  js "<xop:Include href=" ++ dq ++ js "cid:" ++ id ++ dq ++ js "></xop:Include>".

Definition related_XYZ : jsstring := js "multipart/related; boundary=XYZ; type=text/xml".

(** Boundary [XYZ]; an XML part that refers to [cid:att1]; a binary part
    with the lines [Content-Id: <id>] and [Content-Type: image/png], a blank
    line and the data line [BINARYDATA]. *)
Definition mtom_body (id : jsstring) : jsstring :=
  js "--XYZ" ++ lf ++ js "Content-Type: text/xml" ++ lf ++ lf
  ++ js "<a:Envelope>" ++ xop_include (js "att1") ++ js "</a:Envelope>" ++ lf
  ++ js "--XYZ" ++ lf ++ js "Content-Id: <" ++ id ++ js ">" ++ lf
  ++ js "Content-Type: image/png" ++ lf ++ lf ++ js "BINARYDATA" ++ lf ++ js "--XYZ--".

(** An envelope that refers to [cid:att1] and to [cid:att2]. *)
Definition two_references : jsstring :=
  js "<a:Envelope>" ++ xop_include (js "att1") ++ xop_include (js "att2")
  ++ js "</a:Envelope>".


(** A body in which a second closing tag follows the envelope. *)
Definition two_closing_tags : jsstring := js "<a:Envelope>X</a:Envelope>Y</a:Envelope>".

(** A stand-in for [url.parse] that knows the URL of the examples. *)
Definition url_parse_sample (rurl : jsstring) : url_object :=
  if jsstring_eqb rurl (js "http://h:8080/p") then url_h_8080
  else {| protocol := None; hostname := None; port := None;
          pathname := None; search := None; hash := None |}.

Definition version_sample : jsstring := js "0.9.0".

(** A stand-in for the text of a Number beyond 2^53; the ports of the
    examples are far below. *)
Definition number_text_sample (n : Z) : jsstring := js "Infinity".

(** An upper-case table without any pair above ASCII.  The sample inputs
    are ASCII, where no table is consulted. *)
Definition ascii_table : N -> N := fun c => c.

(** ** buildRequest (lines 34 to 78) *)

Section Request.

(** [require('../package.json').version] *)
Variable VERSION : jsstring.

(** [url.parse] of Node.js. *)
Variable url_parse : jsstring -> url_object.

(** The text of a Number beyond 2^53, as the engine prints it. *)
Variable number_text : Z -> jsstring.

Definition buildRequest (rurl : jsstring) (data : jsval)
    (exheaders : option (gmap jsstring jsval))
    (exoptions : option (gmap jsstring optval)) : gmap jsstring optval :=
  let curl := url_parse rurl in
  let secure := bool_decide (protocol curl = Some (js "https:")) in
  let host := hostname curl in
  let port := parseInt (to_string (port curl)) in
  let path := or_else (pathname curl) (js "/") ++ or_else (search curl) []
              ++ or_else (hash curl) [] in
  let method := if truthy data then js "POST" else js "GET" in
  let headers : gmap jsstring jsval :=
    <[js "Host" := VStr (to_string host ++
                         match port with
                         | None => []
                         | Some n => js ":" ++ number_to_string number_text n
                         end)]>
    (<[js "Connection" := VStr (js "close")]>
    (<[js "Accept-Charset" := VStr (js "utf-8")]>
    (<[js "Accept-Encoding" := VStr (js "none")]>
    (<[js "Accept" := VStr (js "text/html,application/xhtml+xml,application/xml,text/xml;q=0.9,*/*;q=0.8")]>
    (<[js "User-Agent" := VStr (js "node-soap/" ++ VERSION)]> ∅))))) in
  let headers :=
    match data with
    | VStr d =>
        <[js "Content-Type" := VStr (js "application/x-www-form-urlencoded")]>
        (<[js "Content-Length" := VNum (Z.of_nat (byteLength d))]> headers)
    | _ => headers
    end in
  let headers := assign_all exheaders headers in
  let options : gmap jsstring optval :=
    <[js "followAllRedirects" := OVal (VBool true)]>
    (<[js "headers" := OHeaders headers]>
    (<[js "method" := OVal (VStr method)]>
    (<[js "uri" := OUri curl]> ∅))) in
  let options :=
    if is_string (js "keep-alive") (headers !! js "Connection")
    then <[js "body" := OVal data]> options
    else options in
  assign_all exoptions options.

End Request.

Section HttpClient.

Set Default Proof Using "Type".

(** The simple upper-case mapping of Unicode on code units above ASCII:
    [unicode_upper c] is the code unit of [c.toUpperCase()] when that is one
    code unit, and [c] otherwise.  The table belongs to the JavaScript
    engine; the functions below are defined for any such table. *)
Variable unicode_upper : N -> N.

(** Canonicalize of ECMAScript 5.1, 15.10.2.8, under the [i] flag. *)
Definition canonicalize (c : N) : N :=
  if c <? 128 then ascii_upper c
  else let cu := unicode_upper c in if cu <? 128 then c else cu.

Definition char_eq (fl : flags) (a c : N) : bool :=
  if ignoreCase fl then canonicalize a =? canonicalize c else a =? c.

(** No white space character has a case variant, and every word character
    is ASCII, so [\s], [\S] and [\w] match the same characters with and
    without the [i] flag. *)
Definition atom_matches (fl : flags) (a : class_atom) (c : N) : bool :=
  match a with
  | CChar x => char_eq fl x c
  | CWord => is_word c
  | CSpace => is_space c
  | CNonSpace => negb (is_space c)
  end.

Definition class_matches (fl : flags) (cl : charclass) (c : N) : bool :=
  xorb (negated cl) (existsb (fun a => atom_matches fl a c) (atoms cl)).

(** [l] matches at the head of [s]: what follows it, and the last character
    read. *)
Fixpoint match_chars (fl : flags) (l : jsstring) (p : option N) (s : jsstring)
  : option (option N * jsstring) :=
  match l with
  | [] => Some (p, s)
  | a :: l' =>
      match s with
      | [] => None
      | c :: s' => if char_eq fl a c then match_chars fl l' (Some c) s' else None
      end
  end.

Definition match_lit (fl : flags) (l : jsstring) (st : state) : list state :=
  match match_chars fl l (prev st) (rest st) with
  | Some (p, s) => [{| prev := p; rest := s; caps := caps st |}]
  | None => []
  end.

(** Greedy repetition of a class: the longest run first, then each shorter
    one down to the empty run. *)
Fixpoint star_run (fl : flags) (cl : charclass) (p : option N) (s : jsstring)
    (cs : list (nat * jsstring)) : list state :=
  match s with
  | c :: s' =>
      if class_matches fl cl c
      then star_run fl cl (Some c) s' cs ++ [{| prev := p; rest := s; caps := cs |}]
      else [{| prev := p; rest := s; caps := cs |}]
  | [] => [{| prev := p; rest := []; caps := cs |}]
  end.

Definition consumed (st st' : state) : jsstring :=
  take (length (rest st) - length (rest st')) (rest st).

Definition advanced (st st' : state) : bool :=
  Nat.ltb (length (rest st')) (length (rest st)).

Definition set_cap (n : nat) (st st' : state) : state :=
  {| prev := prev st'; rest := rest st'; caps := (n, consumed st st') :: caps st' |}.

Definition at_bol (fl : flags) (st : state) : bool :=
  match prev st with
  | None => true
  | Some c => multiline fl && is_line_terminator c
  end.

Definition at_eol (fl : flags) (st : state) : bool :=
  match rest st with
  | [] => true
  | c :: _ => multiline fl && is_line_terminator c
  end.

(** All the ways [r] matches from [st], in the order in which a backtracking
    matcher tries them: the first element is the match the engine reports.
    None of the patterns below quantifies a group that captures, so no
    capture is ever reset. *)
Fixpoint rmatch (fl : flags) (r : regex) (st : state) : list state :=
  match r with
  | Lit l => match_lit fl l st
  | Star cl => star_run fl cl (prev st) (rest st) (caps st)
  | Cat r1 r2 => flat_map (rmatch fl r2) (rmatch fl r1 st)
  | Opt r1 => List.filter (advanced st) (rmatch fl r1 st) ++ [st]
  | Cap n r1 => List.map (set_cap n st) (rmatch fl r1 st)
  | NCap r1 => rmatch fl r1 st
  | Ref n =>
      match lookup_cap n (caps st) with
      | Some l => match_lit fl l st
      | None => [st]
      end
  | Bol => if at_bol fl st then [st] else []
  | Eol => if at_eol fl st then [st] else []
  end.

(** [RegExp.prototype.exec] with [lastIndex = 0]: the leftmost start
    position at which the pattern matches, and the first match there. *)
Fixpoint exec_from (fl : flags) (r : regex) (p : option N) (i : nat) (s : jsstring)
  : option match_result :=
  match rmatch fl r {| prev := p; rest := s; caps := [] |} with
  | st :: _ =>
      Some {| index := i;
              matched := take (length s - length (rest st)) s;
              captures := caps st |}
  | [] =>
      match s with
      | [] => None
      | c :: s' => exec_from fl r (Some c) (S i) s'
      end
  end.

Definition exec (fl : flags) (r : regex) (s : jsstring) : option match_result :=
  exec_from fl r None 0 s.


Definition regexp_exec (re : regexp) (s : jsstring) : option match_result :=
  exec (reflags re) (pattern re) s.

(** ** handleResponse: the envelope (lines 95 to 98) *)

Definition extractEnvelope (body : jsstring) : jsstring :=
  match regexp_exec env_regex body with
  | Some m => matched m
  | None => body
  end.

(** ** handleBinaries (lines 108 to 162) *)

Definition empty_binaries : binaries_obj := {| own := ∅; proto := None |}.

Definition null_attachment : attachment := {| mime := VNull; data := VNull |}.

(** ToString of a capture used as a property key. *)
Definition key_of (id : option jsstring) : jsstring :=
  match id with
  | Some s => s
  | None => js "undefined"
  end.

Definition val_of (x : option jsstring) : jsval :=
  match x with
  | Some s => VStr s
  | None => VUndefined
  end.

(** [binaries[id] = {mime: null, data: null}].  The key [__proto__] is an
    accessor of [Object.prototype]: writing an object to it changes the
    prototype of [binaries] and creates no property. *)
Definition seed (b : binaries_obj) (id : jsstring) : binaries_obj :=
  if jsstring_eqb id (js "__proto__")
  then {| own := own b; proto := Some null_attachment |}
  else {| own := <[id := null_attachment]> (own b); proto := proto b |}.

(** What [binaries[binId]] evaluates to. *)
Inductive slot :=
| SOwn (a : attachment)   (* an entry of the map *)
| SProto (a : attachment) (* the object put in the place of the prototype *)
| SBuiltin                (* Object.prototype or one of its functions *)
| SPrimitive.             (* undefined, null or a string *)

Definition resolve (b : binaries_obj) (k : jsstring) : slot :=
  if jsstring_eqb k (js "__proto__")
  then match proto b with
       | Some a => SProto a
       | None => SBuiltin
       end
  else match own b !! k with
       | Some a => SOwn a
       | None =>
           match proto b with
           | Some _ =>
               if mem k [js "mime"; js "data"] then SPrimitive
               else if mem k object_prototype_names then SBuiltin else SPrimitive
           | None =>
               if mem k object_prototype_names then SBuiltin else SPrimitive
           end
       end.

(** [binaries[binId].f = v], for [f] one of [mime] and [data], given as the
    update [upd] of an attachment.  The module is in strict mode: a write to
    a property of [undefined], of [null] or of a string throws a TypeError.
    A write that lands on a built-in object leaves [binaries] as it is. *)
Definition assign (b : binaries_obj) (k : jsstring) (upd : attachment -> attachment)
  : result binaries_obj :=
  match resolve b k with
  | SOwn a => Ok {| own := <[k := upd a]> (own b); proto := proto b |}
  | SProto a => Ok {| own := own b; proto := Some (upd a) |}
  | SBuiltin => Ok b
  | SPrimitive => Throw TypeError
  end.

Definition set_mime (v : jsval) (a : attachment) : attachment :=
  {| mime := v; data := data a |}.

Definition set_data (v : jsval) (a : attachment) : attachment :=
  {| mime := mime a; data := v |}.

(** The array that [exec] returns for a match [m] of [re]: the matched
    text, then one element for each capturing group of the pattern. *)
Definition match_array (re : regexp) (m : match_result) : list (option jsstring) :=
  Some (matched m) :: List.map (fun i => group i m) (seq 1 (ngroups (pattern re))).

(** The loop of lines 123 to 130 over [match[1]], ..., [match[len - 1]]. *)
Definition seed_matches (m : match_result) (b : binaries_obj) : binaries_obj :=
  fold_left (fun b id => seed b (key_of id)) (drop 1 (match_array inc_regex m)) b.

(** [res.headers['content-type']], converted to a string by [exec]. *)
Definition content_type (res : response) : jsstring :=
  key_of (headers res !! js "content-type").

(** [aux[4] == '' ? aux[5] : aux[4]] *)
Definition data_line (aux : list jsstring) : jsval :=
  match aux !! 4%nat with
  | Some [] => val_of (aux !! 5%nat)
  | x => val_of x
  end.

(** The body of the loop of lines 139 to 158, for one [part]. *)
Definition handle_part (b : binaries_obj) (part : jsstring) : result binaries_obj :=
  match regexp_exec id_regex part with
  | Some binId =>
      let binId := key_of (group 1 binId) in
      try! b :=
        match regexp_exec mim_regex part with
        | Some aux => assign b binId (set_mime (val_of (group 1 aux)))
        | None => Ok b
        end in
      let aux := if includes crlf part then split crlf part else split lf part in
      if Nat.ltb 0 (length aux) then assign b binId (set_data (data_line aux)) else Ok b
  | None => Ok b
  end.

Fixpoint handle_parts (b : binaries_obj) (parts : list jsstring) : result binaries_obj :=
  match parts with
  | [] => Ok b
  | part :: parts' => try! b := handle_part b part in handle_parts b parts'
  end.

Definition handleBinaries (res : response) (body : jsstring) : result response :=
  let binaries := empty_binaries in
  let '(boundary, binaries, contains_binaries) :=
    match regexp_exec bou_regex (content_type res) with
    | Some boundary =>
        let boundary := group 1 boundary in
        match regexp_exec inc_regex body with
        | Some m => (boundary, seed_matches m binaries, true)
        | None => (boundary, binaries, false)
        end
    | None => (None, binaries, false)
    end in
  try! binaries :=
    if contains_binaries
    then
      let bodyParts := match boundary with
                       | Some sep => split sep body
                       | None => [body]
                       end in
      handle_parts binaries (drop 1 bodyParts)
    else Ok binaries in
  Ok (set_binaries res binaries).

(** ** handleResponse (lines 87 to 101) *)

Definition handleResponse (res : response) (body : jsval) : result (response * jsval) :=
  match body with
  | VStr s =>
      try! res := handleBinaries res s in
      Ok (res, VStr (extractEnvelope s))
  | _ => Ok (res, body)
  end.

(** ** request (lines 164 to 179) *)

Section Transport.

Variable VERSION : jsstring.
Variable url_parse : jsstring -> url_object.

(** The text of a Number beyond 2^53, as the engine prints it. *)
Variable number_text : Z -> jsstring.

(** The properties of an object that the caller has made: [object_prop id k]
    is what [o[k]] evaluates to for the object [o] of identity [id]. *)
Variable object_prop : nat -> jsstring -> option jsval.

(** [headers.Connection] for the value [headers] of [options.headers]: a
    read from [undefined] or [null] throws, a string, a number, a boolean
    and the parsed URL have no such property. *)
Definition connection_of (headers : option optval) : result (option jsval) :=
  match headers with
  | Some (OHeaders h) => Ok (h !! js "Connection")
  | Some (OUri _) => Ok None
  | Some (OVal (VObject id)) => Ok (object_prop id (js "Connection"))
  | Some (OVal VUndefined) | Some (OVal VNull) | None => Throw TypeError
  | Some (OVal _) => Ok None
  end.

(** What [request] does before it returns: the description it hands to
    [self._request], and then the payload it writes with [req.end(data)], if
    it writes one. *)
Definition request (rurl : jsstring) (data : jsval)
    (exheaders : option (gmap jsstring jsval))
    (exoptions : option (gmap jsstring optval))
  : gmap jsstring optval * result (option jsval) :=
  let options := buildRequest VERSION url_parse number_text rurl data exheaders exoptions in
  let headers := options !! js "headers" in
  (options,
   try! connection := connection_of headers in
   if negb (is_string (js "keep-alive") connection) then Ok (Some data) else Ok None).

(** A call of [callback]: with the error alone, or with [null], the
    response and the body. *)
Inductive callback_call :=
| CallError (err : jsval)
| CallResult (res : response) (body : jsval).

(** The function that [request] passes to [self._request], lines 168 to
    174. *)
Definition on_complete (err : jsval) (res : response) (body : jsval)
  : result callback_call :=
  if truthy err then Ok (CallError err)
  else
    try! rb := handleResponse res body in
    Ok (CallResult (fst rb) (snd rb)).

End Transport.

(** Two states of [binaries] with the same keys and the same kind of
    prototype. *)
Definition same_shape (b b' : binaries_obj) : Prop :=
  (forall j, own b' !! j = None <-> own b !! j = None) /\
  (proto b' = None <-> proto b = None).

(** ** Occurrences of a literal, letter case ignored *)

Fixpoint ci_starts_with (l s : jsstring) : bool :=
  match l with
  | [] => true
  | a :: l' =>
      match s with
      | [] => false
      | c :: s' => (canonicalize a =? canonicalize c) && ci_starts_with l' s'
      end
  end.

Fixpoint ci_includes (l s : jsstring) : bool :=
  ci_starts_with l s ||
  match s with
  | [] => false
  | _ :: s' => ci_includes l s'
  end.

(** The closing tag that the envelope pattern looks for once its first
    group has captured [p]. *)
Definition closing_tag (p : jsstring) : jsstring :=
  js "</" ++ p ++ js ":Envelope>".

(** * Properties of the matcher *)

Lemma match_chars_split fl l p s p' s' :
  match_chars fl l p s = Some (p', s') ->
  exists u, s = u ++ s' /\ length u = length l.
Proof.
  revert p s. induction l as [|a l IH]; intros p s H; cbn in H.
  - inversion H; subst. exists []. auto.
  - destruct s as [|c s]; [discriminate|].
    destruct (char_eq fl a c); [|discriminate].
    destruct (IH _ _ H) as (u & -> & Hu). exists (c :: u). cbn. auto.
Qed.

Lemma match_lit_suffix fl l st st' :
  In st' (match_lit fl l st) -> exists u, rest st = u ++ rest st' /\ caps st' = caps st.
Proof.
  unfold match_lit. destruct (match_chars fl l (prev st) (rest st)) as [[p s]|] eqn:E.
  - intros [<-|[]]. cbn. destruct (match_chars_split _ _ _ _ _ _ E) as (u & Hu & _). eauto.
  - intros [].
Qed.

Lemma star_run_suffix fl cl p s cs st' :
  In st' (star_run fl cl p s cs) -> exists u, s = u ++ rest st' /\ caps st' = cs.
Proof.
  revert p. induction s as [|c s IH]; intros p; cbn.
  - intros [<-|[]]. exists []. auto.
  - destruct (class_matches fl cl c).
    + rewrite in_app_iff. intros [H|[<-|[]]].
      * destruct (IH _ H) as (u & -> & Hc). exists (c :: u). auto.
      * exists []. auto.
    + intros [<-|[]]. exists []. auto.
Qed.

Lemma rmatch_suffix fl r : forall st st',
  In st' (rmatch fl r st) -> exists u, rest st = u ++ rest st'.
Proof.
  induction r as [l|cl|r1 IH1 r2 IH2|r1 IH1|n r1 IH1|r1 IH1|n| |]; intros st st'; cbn [rmatch].
  - intros H. destruct (match_lit_suffix _ _ _ _ H) as (u & Hu & _). eauto.
  - intros H. destruct (star_run_suffix _ _ _ _ _ _ H) as (u & Hu & _). eauto.
  - rewrite in_flat_map. intros (st1 & H1 & H2).
    destruct (IH1 _ _ H1) as (u1 & E1). destruct (IH2 _ _ H2) as (u2 & E2).
    exists (u1 ++ u2). rewrite E1, E2. now rewrite <- app_assoc.
  - rewrite in_app_iff, filter_In. intros [[H _]|[<-|[]]]; [eauto|]. now exists [].
  - rewrite in_map_iff. intros (st1 & <- & H). cbn. eauto.
  - eauto.
  - destruct (lookup_cap n (caps st)).
    + intros H. destruct (match_lit_suffix _ _ _ _ H) as (u & Hu & _). eauto.
    + intros [<-|[]]. now exists [].
  - destruct (at_bol fl st); [intros [<-|[]]; now exists [] | intros []].
  - destruct (at_eol fl st); [intros [<-|[]]; now exists [] | intros []].
Qed.

Lemma rmatch_length fl r st st' :
  In st' (rmatch fl r st) -> (length (rest st') <= length (rest st))%nat.
Proof.
  intros H. destruct (rmatch_suffix _ _ _ _ H) as (u & ->). rewrite length_app. lia.
Qed.

(** ** What a result of [exec] says about the input *)

Lemma state_at_0 p s cs : state_at p s cs 0 = {| prev := p; rest := s; caps := cs |}.
Proof. unfold state_at. destruct s; reflexivity. Qed.

Lemma state_at_S p c s cs k : state_at p (c :: s) cs (S k) = state_at (Some c) s cs k.
Proof. reflexivity. Qed.

Lemma exec_from_some fl r : forall s p i m,
  exec_from fl r p i s = Some m ->
  exists k st stl,
    (k <= length s)%nat /\
    rmatch fl r (state_at p s [] k) = st :: stl /\
    index m = (i + k)%nat /\
    matched m = take (length (drop k s) - length (rest st)) (drop k s) /\
    captures m = caps st /\
    forall j, (j < k)%nat -> rmatch fl r (state_at p s [] j) = [].
Proof.
  induction s as [|c s IH]; intros p i m; cbn [exec_from];
    destruct (rmatch fl r {| prev := p; rest := _; caps := [] |}) as [|st stl] eqn:E.
  - discriminate.
  - intros [= <-]. exists 0%nat, st, stl. rewrite state_at_0. cbn.
    repeat split; auto; lia.
  - intros H. destruct (IH _ _ _ H) as (k & st & stl & Hk & Hr & Hi & Hm & Hc & Hj).
    exists (S k), st, stl. rewrite state_at_S. cbn [length drop].
    repeat split; auto; try lia.
    intros [|j] Hlt; [now rewrite state_at_0 | rewrite state_at_S; apply Hj; lia].
  - intros [= <-]. exists 0%nat, st, stl. rewrite state_at_0. cbn [drop index matched captures].
    repeat split; auto; lia.
Qed.

Lemma exec_from_none fl r : forall s p i,
  (forall k, (k <= length s)%nat -> rmatch fl r (state_at p s [] k) = []) ->
  exec_from fl r p i s = None.
Proof.
  induction s as [|c s IH]; intros p i H; cbn [exec_from].
  - specialize (H 0%nat (Nat.le_refl _)). rewrite state_at_0 in H. now rewrite H.
  - pose proof (H 0%nat (Nat.le_0_l _)) as H0. rewrite state_at_0 in H0. rewrite H0.
    apply IH. intros k Hk. specialize (H (S k)). rewrite state_at_S in H. apply H. cbn. lia.
Qed.

(** ** Literals under the [i] flag *)

Lemma match_chars_ci fl l : ignoreCase fl = true -> forall p s x,
  match_chars fl l p s = Some x -> ci_starts_with l s = true.
Proof.
  intros Hi. induction l as [|a l IH]; intros p s x; cbn; [reflexivity|].
  destruct s as [|c s]; [discriminate|].
  unfold char_eq. rewrite Hi. destruct (canonicalize a =? canonicalize c); [|discriminate].
  intros H. cbn. eauto.
Qed.

Lemma ci_match_chars fl l : ignoreCase fl = true -> forall p s,
  ci_starts_with l s = true ->
  exists p', match_chars fl l p s = Some (p', drop (length l) s).
Proof.
  intros Hi. induction l as [|a l IH]; intros p s; cbn.
  - intros _. exists p. now destruct s.
  - destruct s as [|c s]; [discriminate|].
    unfold char_eq. rewrite Hi. destruct (canonicalize a =? canonicalize c); [|discriminate].
    cbn. apply IH.
Qed.

Lemma ci_starts_with_length l : forall s,
  ci_starts_with l s = true -> (length l <= length s)%nat.
Proof.
  induction l as [|a l IH]; intros [|c s]; cbn; try lia; try discriminate.
  intros H. apply andb_true_iff in H as [_ H]. apply IH in H. lia.
Qed.

Lemma ci_starts_with_app l : forall s t,
  (length l <= length s)%nat -> ci_starts_with l (s ++ t) = ci_starts_with l s.
Proof.
  induction l as [|a l IH]; intros [|c s] t; cbn; try lia; auto.
  intros H. f_equal. apply IH. lia.
Qed.

Lemma ci_includes_drop l : forall s k,
  ci_starts_with l (drop k s) = true -> ci_includes l s = true.
Proof.
  induction s as [|c s IH]; intros k H.
  - rewrite drop_nil in H. cbn. now rewrite H.
  - destruct k as [|k].
    + cbn [drop] in H. cbn [ci_includes]. now rewrite H.
    + cbn [drop] in H. cbn [ci_includes]. rewrite (IH _ H). apply orb_true_r.
Qed.

Lemma ci_starts_with_chars l : forall s c,
  ci_starts_with l s = true -> length s = length l -> In c s ->
  exists a, In a l /\ canonicalize a = canonicalize c.
Proof.
  induction l as [|a l IH]; intros [|x s] c; cbn; try discriminate; try tauto.
  intros H [= Hl] [->|Hc]; apply andb_true_iff in H as [Hx H].
  - exists a. split; [auto|]. now apply N.eqb_eq.
  - destruct (IH _ _ H Hl Hc) as (a' & Ha & E). eauto.
Qed.

Lemma canonicalize_semicolon c : canonicalize c = 59 -> c = 59.
Proof.
  unfold canonicalize, ascii_upper.
  destruct (N.ltb_spec c 128).
  - destruct ((97 <=? c) && (c <=? 122)) eqn:E; [|auto].
    apply andb_true_iff in E as [E1 E2]. apply N.leb_le in E1, E2. lia.
  - destruct (N.ltb_spec (unicode_upper c) 128); lia.
Qed.

(** A pattern that starts with a literal matches only where the literal
    occurs. *)
Lemma rmatch_lit_first fl l r st st' :
  ignoreCase fl = true ->
  In st' (rmatch fl (NCap (Lit l) +++ r) st) ->
  ci_starts_with l (rest st) = true /\
  exists st1, rest st1 = drop (length l) (rest st) /\ caps st1 = caps st /\
              In st' (rmatch fl r st1).
Proof.
  intros Hi. cbn [rmatch]. rewrite in_flat_map. intros (st1 & H1 & H2).
  unfold match_lit in H1.
  destruct (match_chars fl l (prev st) (rest st)) as [[p s]|] eqn:E; [|destruct H1].
  destruct H1 as [<-|[]].
  pose proof (match_chars_ci _ _ Hi _ _ _ E) as Hci. split; [exact Hci|].
  destruct (ci_match_chars fl l Hi (prev st) _ Hci) as (p' & E').
  rewrite E in E'. injection E' as -> ->.
  exists {| prev := p'; rest := drop (length l) (rest st); caps := caps st |}. auto.
Qed.

Lemma regexp_exec_lit_first re l r s m :
  pattern re = NCap (Lit l) +++ r -> ignoreCase (reflags re) = true ->
  regexp_exec re s = Some m ->
  exists k st1 st',
    ci_starts_with l (drop k s) = true /\
    rest st1 = drop (length l + k) s /\ caps st1 = [] /\
    In st' (rmatch (reflags re) r st1).
Proof.
  intros Hp Hi H. unfold regexp_exec, exec in H. rewrite Hp in H.
  destruct (exec_from_some _ _ _ _ _ _ H) as (k & st & stl & _ & Hr & _).
  assert (Hin : In st (rmatch (reflags re) (NCap (Lit l) +++ r) (state_at None s [] k)))
    by (rewrite Hr; now left).
  destruct (rmatch_lit_first _ _ _ _ _ Hi Hin) as (Hci & st1 & Hr1 & Hc1 & H1).
  exists k, st1, st. cbn [state_at rest caps] in *. rewrite drop_drop in Hr1.
  rewrite (Nat.add_comm (length l) k). auto.
Qed.


(** ** handleBinaries without a boundary or without a reference *)

Lemma handleBinaries_no_boundary res body :
  regexp_exec bou_regex (content_type res) = None ->
  handleBinaries res body = Ok (set_binaries res empty_binaries).
Proof. intros H. unfold handleBinaries. now rewrite H. Qed.


Lemma includes_char_In c : forall s, includes [c] s = false -> ~ In c s.
Proof.
  induction s as [|x s IH]; cbn; [intros _ []|].
  rewrite andb_true_r. intros H [->|Hin].
  - now rewrite N.eqb_refl in H.
  - apply orb_false_iff in H as [_ H]. now apply IH.
Qed.

Lemma In_drop {A : Type} (x : A) : forall k l, In x (drop k l) -> In x l.
Proof.
  induction k as [|k IH]; intros [|y l]; cbn; auto.
Qed.

Lemma match_lit_ci fl l st st' :
  ignoreCase fl = true -> In st' (match_lit fl l st) -> ci_starts_with l (rest st) = true.
Proof.
  intros Hi. unfold match_lit.
  destruct (match_chars fl l (prev st) (rest st)) as [[p s]|] eqn:E; [|intros []].
  intros _. eapply match_chars_ci; eauto.
Qed.

Lemma bou_regex_semicolon st1 st' :
  In st' (rmatch (reflags bou_regex)
            (Cap 1 (Star (cls [CWord; chr "-"])) +++ NCap (Lit (js ";"))) st1) ->
  In 59 (rest st1).
Proof.
  cbn [rmatch]. rewrite in_flat_map. intros (st2 & H2 & H').
  apply in_map_iff in H2 as (st3 & <- & H3).
  apply star_run_suffix in H3 as (u & Hu & _). rewrite Hu.
  apply in_or_app. right. apply (match_lit_ci (reflags bou_regex) _ _ _ eq_refl) in H'.
  cbn [set_cap rest] in H'.
  destruct (rest st3) as [|c s3]; [discriminate|].
  change (js ";") with [59] in H'. cbn [ci_starts_with] in H'.
  apply andb_true_iff in H' as [E _].
  apply N.eqb_eq in E. change (canonicalize 59) with 59 in E.
  symmetry in E. apply canonicalize_semicolon in E. subst c. now left.
Qed.


(** C10, as amended: the boundary is recognised only when a semicolon
    follows the parameter.  When the Content-Type header ends with its boundary
    parameter, [b] spelling [boundary=] in some letter case and [tok] holding
    no semicolon, and nothing before it is a boundary parameter, the pattern
    finds no boundary and the attachment map is empty, whatever the body
    is. *)
Theorem boundary_without_semicolon_empty_map res pre b tok body :
  content_type res = pre ++ b ++ tok ->
  ci_includes (js "boundary=") pre = false ->
  ci_starts_with (js "boundary=") b = true ->
  length b = length (js "boundary=") ->
  includes (js ";") tok = false ->
  regexp_exec bou_regex (content_type res) = None /\
  handleBinaries res body = Ok (set_binaries res empty_binaries).
Proof.
  intros Hh Hpre Hb Hlen Htok.
  assert (Hnone : regexp_exec bou_regex (content_type res) = None).
  { destruct (regexp_exec bou_regex (content_type res)) as [m|] eqn:E; [exfalso|reflexivity].
    destruct (regexp_exec_lit_first bou_regex _ _ _ _ eq_refl eq_refl E)
      as (k & st1 & st' & Hci & Hrest & _ & Hin).
    apply bou_regex_semicolon in Hin. rewrite Hrest, Hh in Hin. rewrite Hh in Hci.
    change (length (js "boundary=")) with 9%nat in *.
    destruct (Nat.le_gt_cases (k + 9) (length pre)) as [Hk|Hk].
    - rewrite drop_app_le in Hci by lia.
      rewrite ci_starts_with_app in Hci by (rewrite length_drop; cbn; lia).
      apply ci_includes_drop in Hci. congruence.
    - rewrite drop_app_ge in Hin by lia. apply In_drop in Hin.
      apply in_app_or in Hin as [Hin|Hin].
      + destruct (ci_starts_with_chars _ _ _ Hb Hlen Hin) as (a & Ha & Ea).
        cbn in Ha.
        repeat (destruct Ha as [<-|Ha]; [vm_compute in Ea; discriminate|]).
        destruct Ha.
      + now apply includes_char_In in Htok. }
  split; [exact Hnone|]. now apply handleBinaries_no_boundary.
Qed.

(** ** Matching does not look past the end of the match

    For a pattern without [^] and [$], the matches on an input are the
    matches on any longer input that end within the shorter one, in the same
    order. *)

Lemma filter_none {A : Type} (f : A -> bool) (l : list A) :
  (forall x, In x l -> f x = false) -> List.filter f l = [].
Proof.
  induction l as [|x l IH]; cbn; intros H; [reflexivity|].
  rewrite (H x) by now left. apply IH. intros y Hy. apply H. now right.
Qed.

Lemma Forall2_flat_map {A B : Type} (R : A -> B -> Prop) (f : A -> list A) (g : B -> list B)
    (S : A -> B -> Prop) l1 l2 :
  Forall2 S l1 l2 -> (forall x y, S x y -> Forall2 R (f x) (g y)) ->
  Forall2 R (flat_map f l1) (flat_map g l2).
Proof.
  intros H Hfg. induction H as [|x y l1 l2 Hxy _ IH]; cbn; [constructor|].
  apply Forall2_app; auto.
Qed.

Lemma Forall2_filter {A B : Type} (R : A -> B -> Prop) (p : A -> bool) (q : B -> bool) l1 l2 :
  Forall2 R l1 l2 -> (forall x y, R x y -> p x = q y) ->
  Forall2 R (List.filter p l1) (List.filter q l2).
Proof.
  intros H Hpq. induction H as [|x y l1 l2 Hxy _ IH]; cbn; [constructor|].
  rewrite (Hpq _ _ Hxy). destruct (q y); auto.
Qed.

Lemma Forall2_map {A B : Type} (R : A -> B -> Prop) (f : A -> A) (g : B -> B) l1 l2 :
  Forall2 R l1 l2 -> (forall x y, R x y -> R (f x) (g y)) ->
  Forall2 R (List.map f l1) (List.map g l2).
Proof.
  intros H Hfg. induction H as [|x y l1 l2 Hxy _ IH]; cbn; constructor; auto.
Qed.

Lemma filter_comm {A : Type} (f g : A -> bool) (l : list A) :
  List.filter f (List.filter g l) = List.filter g (List.filter f l).
Proof.
  induction l as [|x l IH]; cbn; [reflexivity|].
  destruct (g x) eqn:Eg, (f x) eqn:Ef; cbn; rewrite ?Eg, ?Ef, IH; reflexivity.
Qed.

Lemma filter_keeps_flat_map u (g : state -> list state) (l : list state) :
  (forall x y, In y (g x) -> (length (rest y) <= length (rest x))%nat) ->
  List.filter (keeps u) (flat_map g l)
  = flat_map (fun x => List.filter (keeps u) (g x)) (List.filter (keeps u) l).
Proof.
  intros Hg. induction l as [|x l IH]; cbn; [reflexivity|].
  rewrite List.filter_app, IH. destruct (keeps u x) eqn:E; cbn; [reflexivity|].
  rewrite filter_none; [reflexivity|].
  intros y Hy. apply Hg in Hy. unfold keeps in *.
  apply Nat.leb_gt in E. apply Nat.leb_gt. lia.
Qed.

Lemma match_chars_ext fl l u : forall p p2 s,
  match match_chars fl l p s with
  | Some (_, s') => exists p', match_chars fl l p2 (s ++ u) = Some (p', s' ++ u)
  | None =>
      match match_chars fl l p2 (s ++ u) with
      | Some (_, s'') => (length s'' < length u)%nat
      | None => True
      end
  end.
Proof.
  induction l as [|a l IH]; intros p p2 s.
  - cbn [match_chars]. eauto.
  - destruct s as [|c s].
    + cbn [app]. destruct (match_chars fl (a :: l) p2 u) as [[p' s'']|] eqn:E;
        cbn [match_chars]; [|exact I].
      apply match_chars_split in E as (w & -> & Hw). rewrite length_app. cbn in Hw. lia.
    + cbn [app match_chars]. destruct (char_eq fl a c); [apply IH|exact I].
Qed.

Lemma match_lit_ext fl l u a b :
  ext u a b ->
  Forall2 (ext u) (match_lit fl l a) (List.filter (keeps u) (match_lit fl l b)).
Proof.
  intros [Hr Hc]. unfold match_lit. rewrite Hr.
  pose proof (match_chars_ext fl l u (prev a) (prev b) (rest a)) as H.
  destruct (match_chars fl l (prev a) (rest a)) as [[p s']|].
  - destruct H as (p' & ->). cbn. unfold keeps. cbn.
    rewrite length_app. replace (length u <=? length s' + length u)%nat with true
      by (symmetry; apply Nat.leb_le; lia).
    constructor; [|constructor]. split; cbn; auto.
  - destruct (match_chars fl l (prev b) (rest a ++ u)) as [[p' s'']|]; [|constructor].
    cbn. unfold keeps. cbn. replace (length u <=? length s'')%nat with false
      by (symmetry; apply Nat.leb_gt; lia).
    constructor.
Qed.

Lemma star_run_beyond fl cl u : forall p cs,
  List.filter (keeps u) (star_run fl cl p u cs) = [{| prev := p; rest := u; caps := cs |}].
Proof.
  intros p cs.
  assert (Hk : keeps u {| prev := p; rest := u; caps := cs |} = true)
    by (unfold keeps; cbn; apply Nat.leb_le; lia).
  destruct u as [|c u]; cbn [star_run].
  - cbn [List.filter]. now rewrite Hk.
  - destruct (class_matches fl cl c).
    + rewrite List.filter_app. cbn [List.filter]. rewrite Hk.
      rewrite filter_none; [reflexivity|].
      intros x Hx. apply star_run_suffix in Hx as (w & Hw & _).
      unfold keeps. apply Nat.leb_gt. cbn [length]. rewrite Hw, length_app. lia.
    + cbn [List.filter]. now rewrite Hk.
Qed.

Lemma star_run_ext fl cl u cs : forall s p p2,
  Forall2 (ext u) (star_run fl cl p s cs)
    (List.filter (keeps u) (star_run fl cl p2 (s ++ u) cs)).
Proof.
  induction s as [|c s IH]; intros p p2.
  - cbn [app]. rewrite star_run_beyond. cbn. constructor; [|constructor]. split; auto.
  - assert (Hk : keeps u {| prev := p2; rest := (c :: s) ++ u; caps := cs |} = true)
      by (unfold keeps; cbn [rest]; apply Nat.leb_le; rewrite length_app; lia).
    assert (He : ext u {| prev := p; rest := c :: s; caps := cs |}
                       {| prev := p2; rest := (c :: s) ++ u; caps := cs |})
      by (split; reflexivity).
    cbn [app star_run]. destruct (class_matches fl cl c).
    + rewrite List.filter_app. cbn [List.filter]. cbn [app] in Hk. rewrite Hk.
      apply Forall2_app; [apply IH|]. constructor; [exact He|constructor].
    + cbn [List.filter]. cbn [app] in Hk. rewrite Hk. constructor; [exact He|constructor].
Qed.

Lemma filter_keeps_set_cap u n b l :
  List.filter (keeps u) (List.map (set_cap n b) l)
  = List.map (set_cap n b) (List.filter (keeps u) l).
Proof.
  induction l as [|x l IH]; [reflexivity|]. cbn [List.map List.filter].
  change (keeps u (set_cap n b x)) with (keeps u x).
  destruct (keeps u x); cbn [List.map]; now rewrite IH.
Qed.

Lemma ext_keeps u a b : ext u a b -> keeps u b = true.
Proof.
  intros [Hr _]. unfold keeps. rewrite Hr, length_app. apply Nat.leb_le. lia.
Qed.

Lemma rmatch_ext fl u r :
  anchor_free r = true ->
  forall a b, ext u a b ->
  Forall2 (ext u) (rmatch fl r a) (List.filter (keeps u) (rmatch fl r b)).
Proof.
  induction r as [l|cl|r1 IH1 r2 IH2|r1 IH1|n r1 IH1|r1 IH1|n| |];
    cbn [anchor_free rmatch]; intros Haf a b Hab; try discriminate.
  - now apply match_lit_ext.
  - destruct Hab as [Hr Hc]. rewrite Hr, Hc. apply star_run_ext.
  - apply andb_true_iff in Haf as [Haf1 Haf2].
    rewrite filter_keeps_flat_map by (intros x y; apply rmatch_length).
    eapply Forall2_flat_map; [apply (IH1 Haf1 _ _ Hab)|].
    intros x y Hxy. now apply IH2.
  - rewrite List.filter_app. cbn [List.filter]. rewrite (ext_keeps _ _ _ Hab).
    apply Forall2_app; [|constructor; [exact Hab|constructor]].
    rewrite filter_comm. apply Forall2_filter; [now apply IH1|].
    intros x y [Hxy _]. destruct Hab as [Hr _]. unfold advanced.
    rewrite Hxy, Hr, !length_app.
    destruct (Nat.ltb_spec (length (rest x)) (length (rest a)));
      [symmetry; apply Nat.ltb_lt | symmetry; apply Nat.ltb_ge]; lia.
  - rewrite filter_keeps_set_cap. apply Forall2_map; [now apply IH1|].
    intros x y [Hxy Hcxy]. destruct Hab as [Hr Hc]. split; cbn [set_cap rest caps]; [exact Hxy|].
    unfold consumed. rewrite Hcxy, Hxy, Hr, !length_app.
    replace (length (rest a) + length u - (length (rest x) + length u))%nat
      with (length (rest a) - length (rest x))%nat by lia.
    rewrite take_app_le by lia. reflexivity.
  - now apply IH1.
  - destruct Hab as [Hr Hc]. rewrite Hc. destruct (lookup_cap n (caps a)).
    + apply match_lit_ext. now split.
    + cbn [List.filter]. rewrite (ext_keeps u a b) by now split.
      constructor; [now split|constructor].
Qed.

Lemma exec_from_head fl r p i s st stl :
  rmatch fl r {| prev := p; rest := s; caps := [] |} = st :: stl ->
  exec_from fl r p i s
  = Some {| index := i; matched := take (length s - length (rest st)) s;
            captures := caps st |}.
Proof. intros H. destruct s; cbn [exec_from]; now rewrite H. Qed.

(** The text that a pattern without [^] and [$] matches is matched by the
    pattern as a whole, from its first character, with the same captures. *)
Lemma exec_matched fl r s m :
  anchor_free r = true -> exec fl r s = Some m ->
  exec fl r (matched m)
  = Some {| index := 0; matched := matched m; captures := captures m |}.
Proof.
  intros Haf H. unfold exec in H.
  destruct (exec_from_some _ _ _ _ _ _ H) as (k & st & stl & _ & Hr & _ & Hm & Hc & _).
  assert (Hin : In st (rmatch fl r (state_at None s [] k))) by (rewrite Hr; now left).
  destruct (rmatch_suffix _ _ _ _ Hin) as (w & Hw). cbn [state_at rest] in Hw.
  rewrite Hw, length_app in Hm.
  replace (length w + length (rest st) - length (rest st))%nat with (length w) in Hm by lia.
  rewrite take_app_length in Hm.
  pose (a := {| prev := None; rest := w; caps := [] |}).
  assert (Hab : ext (rest st) a (state_at None s [] k)) by (split; auto).
  pose proof (rmatch_ext fl (rest st) r Haf _ _ Hab) as HF.
  rewrite Hr in HF. cbn [List.filter] in HF.
  replace (keeps (rest st) st) with true in HF
    by (symmetry; unfold keeps; apply Nat.leb_le; lia).
  inversion HF as [|a' y l1 l2 [Ha' Hca'] _ Hl1]; subst y l2.
  assert (Hnil : rest a' = []).
  { apply (f_equal (@length N)) in Ha'. rewrite length_app in Ha'.
    destruct (rest a'); [reflexivity|cbn in Ha'; lia]. }
  unfold exec. rewrite Hm. symmetry in Hl1. fold a.
  rewrite (exec_from_head _ _ _ _ _ _ _ Hl1).
  rewrite Hnil, Hc, Hca'. cbn [length]. rewrite Nat.sub_0_r, take_ge by lia. reflexivity.
Qed.

(** ** The first match of a greedy repetition *)

Lemma flat_map_head_inv {A B : Type} (f : A -> list B) : forall l y ys,
  flat_map f l = y :: ys ->
  exists l1 x l2 ys', l = l1 ++ x :: l2 /\ (forall z, In z l1 -> f z = []) /\ f x = y :: ys'.
Proof.
  induction l as [|x l IH]; cbn; intros y ys H; [discriminate|].
  destruct (f x) as [|y' ys'] eqn:E.
  - destruct (IH _ _ H) as (l1 & x' & l2 & ys2 & -> & Hl1 & Hx).
    exists (x :: l1), x', l2, ys2. repeat split; auto.
    intros z [<-|Hz]; auto.
  - cbn in H. injection H as -> <-. exists [], x, l, ys'. repeat split; auto.
    intros z [].
Qed.

Lemma flat_map_nil_inv {A B : Type} (f : A -> list B) : forall l,
  flat_map f l = [] -> forall z, In z l -> f z = [].
Proof.
  induction l as [|x l IH]; cbn; intros H z; [intros []|].
  apply app_eq_nil in H as [Hx Hl]. intros [<-|Hz]; auto.
Qed.

Lemma flat_map_of_map {A B C : Type} (f : B -> list C) (g : A -> B) (l : list A) :
  flat_map f (List.map g l) = flat_map (fun x => f (g x)) l.
Proof. induction l as [|x l IH]; cbn; [reflexivity|]. now rewrite IH. Qed.

Lemma rmatch_cat_head fl r1 r2 st y ys :
  rmatch fl (r1 +++ r2) st = y :: ys ->
  exists st1 ys', In st1 (rmatch fl r1 st) /\ rmatch fl r2 st1 = y :: ys'.
Proof.
  cbn [rmatch]. intros H.
  apply flat_map_head_inv in H as (l1 & x & l2 & ys' & Hl & _ & Hx).
  exists x, ys'. split; [|exact Hx]. rewrite Hl. apply in_or_app. right. now left.
Qed.

Section Greedy.

Variables (fl : flags) (cl : charclass).
Hypothesis Hall : forall c, class_matches fl cl c = true.

Lemma star_run_all_in : forall s p cs j,
  (j <= length s)%nat -> In (state_at p s cs j) (star_run fl cl p s cs).
Proof using Hall.
  induction s as [|c s IH]; intros p cs j Hj.
  - cbn in Hj. replace j with 0%nat by lia. rewrite state_at_0. now left.
  - cbn [star_run]. rewrite Hall. apply in_or_app. destruct j as [|j].
    + right. rewrite state_at_0. now left.
    + left. rewrite state_at_S. apply IH. cbn in Hj. lia.
Qed.

(** Among the ends of a repetition that matches every character, the
    first one from which the rest of the pattern matches is the last one in
    the input. *)
Lemma star_all_first (f : state -> list state) : forall s p cs y ys,
  flat_map f (star_run fl cl p s cs) = y :: ys ->
  exists k ys', (k <= length s)%nat /\
    f (state_at p s cs k) = y :: ys' /\
    forall j, (k < j)%nat -> (j <= length s)%nat -> f (state_at p s cs j) = [].
Proof using Hall.
  induction s as [|c s IH]; intros p cs y ys.
  - cbn [star_run flat_map]. rewrite app_nil_r. intros H.
    exists 0%nat, ys. rewrite state_at_0. repeat split; auto. cbn. lia.
  - cbn [star_run]. rewrite Hall, flat_map_app. cbn [flat_map]. rewrite app_nil_r.
    destruct (flat_map f (star_run fl cl (Some c) s cs)) as [|y' ys''] eqn:E.
    + cbn [app]. intros H. exists 0%nat, ys. rewrite state_at_0.
      repeat split; auto; [lia|].
      intros [|j] Hlt Hle; [lia|]. rewrite state_at_S.
      apply (flat_map_nil_inv _ _ E). apply star_run_all_in. cbn in Hle. lia.
    + cbn [app]. intros [= -> _].
      destruct (IH _ _ _ _ E) as (k & ys' & Hk & Hf & Hlater).
      exists (S k), ys'. rewrite state_at_S. repeat split; auto; [cbn; lia|].
      intros [|j] Hlt Hle; [lia|]. rewrite state_at_S. apply Hlater; cbn in Hle; lia.
Qed.

End Greedy.

Lemma any_character fl c : class_matches fl (cls [CNonSpace; CSpace]) c = true.
Proof. cbn. now destruct (is_space c). Qed.

Lemma ci_starts_with_cat l1 : forall l2 s,
  ci_starts_with (l1 ++ l2) s
  = ci_starts_with l1 s && ci_starts_with l2 (drop (length l1) s).
Proof.
  induction l1 as [|a l1 IH]; intros l2 s; cbn.
  - now destruct s.
  - destruct s as [|c s]; [reflexivity|]. rewrite IH. cbn [drop]. apply andb_assoc.
Qed.

Lemma match_lit_spec fl l st :
  ignoreCase fl = true ->
  if ci_starts_with l (rest st)
  then exists p', match_lit fl l st
                  = [{| prev := p'; rest := drop (length l) (rest st); caps := caps st |}]
  else match_lit fl l st = [].
Proof.
  intros Hi. unfold match_lit. destruct (ci_starts_with l (rest st)) eqn:E.
  - destruct (ci_match_chars fl l Hi (prev st) _ E) as (p' & ->). eauto.
  - destruct (match_chars fl l (prev st) (rest st)) as [[p' s']|] eqn:E'; [|reflexivity].
    apply (match_chars_ci _ _ Hi) in E'. congruence.
Qed.

(** The end of the envelope pattern matches exactly where the closing tag
    with the captured prefix stands, letter case ignored. *)
Lemma rmatch_env_close fl p st :
  ignoreCase fl = true -> lookup_cap 1 (caps st) = Some p ->
  if ci_starts_with (closing_tag p) (rest st)
  then exists p', rmatch fl env_close st
                  = [{| prev := p'; rest := drop (length (closing_tag p)) (rest st);
                        caps := caps st |}]
  else rmatch fl env_close st = [].
Proof.
  intros Hi Hp. unfold closing_tag, env_close. rewrite !ci_starts_with_cat.
  cbn [rmatch].
  pose proof (match_lit_spec fl (js "</") st Hi) as H1.
  destruct (ci_starts_with (js "</") (rest st)); cbn [andb];
    [destruct H1 as (p1 & ->)|now rewrite H1].
  cbn [flat_map caps]. rewrite app_nil_r, Hp.
  pose proof (match_lit_spec fl p
    {| prev := p1; rest := drop (length (js "</")) (rest st); caps := caps st |} Hi) as H2.
  cbn [rest caps] in H2.
  destruct (ci_starts_with p (drop (length (js "</")) (rest st))); cbn [andb];
    [destruct H2 as (p2 & ->)|now rewrite H2].
  cbn [flat_map]. rewrite app_nil_r.
  pose proof (match_lit_spec fl (js ":Envelope>")
    {| prev := p2; rest := drop (length p) (drop (length (js "</")) (rest st));
       caps := caps st |} Hi) as H3.
  cbn [rest caps] in H3. rewrite drop_drop in H3 |- *.
  destruct (ci_starts_with (js ":Envelope>") (drop (length (js "</") + length p) (rest st)));
    [destruct H3 as (p3 & ->)|exact H3].
  exists p3. rewrite drop_drop, !length_app.
  now rewrite Nat.add_assoc.
Qed.

(** The shape of the first match of the envelope pattern from [st0]: the
    content group ends at position [k] of the input [s4] that follows the
    start tag, where the closing tag stands, and no closing tag stands at a
    later position. *)
Lemma env_match_shape st0 stf stl :
  rmatch (reflags env_regex) (pattern env_regex) st0 = stf :: stl ->
  exists p w s4 k,
    lookup_cap 1 (caps stf) = Some p /\
    rest st0 = w ++ s4 /\ (k <= length s4)%nat /\
    ci_starts_with (closing_tag p) (drop k s4) = true /\
    rest stf = drop (length (closing_tag p)) (drop k s4) /\
    forall j, (k < j)%nat -> (j <= length s4)%nat ->
              ci_starts_with (closing_tag p) (drop j s4) = false.
Proof.
  unfold env_regex. cbn [pattern reflags].
  set (fl := {| ignoreCase := true; multiline := false |}).
  intros H.
  apply rmatch_cat_head in H as (st1 & ys1 & H1 & H).
  apply rmatch_cat_head in H as (st2 & ys2 & H2 & H).
  apply rmatch_cat_head in H as (st3 & ys3 & H3 & H).
  apply rmatch_cat_head in H as (st4 & ys4 & H4 & H).
  change (Lit (js "</") +++ Ref 1 +++ Lit (js ":Envelope>")) with env_close in H.
  apply rmatch_suffix in H1 as (w1 & Hw1), H2 as (w2 & Hw2).
  pose proof (rmatch_suffix _ _ _ _ H3) as (w3 & Hw3).
  cbn [rmatch] in H3, H4. apply in_map_iff in H3 as (x & <- & _).
  apply match_lit_suffix in H4 as (w4 & Hw4 & Hc4).
  cbn [set_cap rest caps] in *.
  set (p := consumed st2 x) in *.
  assert (Hp4 : lookup_cap 1 (caps st4) = Some p) by (rewrite Hc4; reflexivity).
  cbn [rmatch] in H. rewrite flat_map_of_map in H.
  apply (star_all_first fl _ (any_character fl)) in H as (k & ys' & Hk & Hf & Hlater).
  assert (Hclose : forall j,
    if ci_starts_with (closing_tag p) (drop j (rest st4))
    then exists p', rmatch fl env_close
                      (set_cap 2 st4 (state_at (prev st4) (rest st4) (caps st4) j))
                    = [{| prev := p';
                          rest := drop (length (closing_tag p)) (drop j (rest st4));
                          caps := (2%nat, consumed st4
                                     (state_at (prev st4) (rest st4) (caps st4) j))
                                  :: caps st4 |}]
    else rmatch fl env_close
           (set_cap 2 st4 (state_at (prev st4) (rest st4) (caps st4) j)) = []).
  { intros j.
    apply (rmatch_env_close fl p
             (set_cap 2 st4 (state_at (prev st4) (rest st4) (caps st4) j)) eq_refl).
    cbn [set_cap caps state_at lookup_cap Nat.eqb]. exact Hp4. }
  exists p, (w1 ++ w2 ++ w3 ++ w4), (rest st4), k.
  pose proof (Hclose k) as Hk'.
  destruct (ci_starts_with (closing_tag p) (drop k (rest st4))) eqn:Ek.
  - destruct Hk' as (p' & Hk'). rewrite Hk' in Hf. injection Hf as <- _.
    cbn [caps rest lookup_cap Nat.eqb].
    repeat split; auto.
    + rewrite Hw1, Hw2, Hw3, Hw4, <- !app_assoc. reflexivity.
    + intros j Hlt Hle. specialize (Hlater j Hlt Hle). pose proof (Hclose j) as Hj.
      destruct (ci_starts_with (closing_tag p) (drop j (rest st4))); [|reflexivity].
      destruct Hj as (p'' & Hj). rewrite Hj in Hlater. discriminate.
  - rewrite Hk' in Hf. discriminate.
Qed.

(** * The claims about the envelope *)

(** C6, as amended: the content between the tags is matched greedily.
    When the pattern matches, the returned span is a piece of the body that
    ends with the closing tag of the captured prefix, and no closing tag
    with that prefix (letter case ignored) starts later in the body: the
    span ends at the last such tag, not at the earliest. *)
Theorem envelope_ends_at_last_closing_tag b m :
  regexp_exec env_regex b = Some m ->
  extractEnvelope b = matched m /\
  matched m = take (length (matched m)) (drop (index m) b) /\
  exists p, group 1 m = Some p /\
    let tag := closing_tag p in
    let e := (index m + length (matched m))%nat in
    (length tag <= length (matched m))%nat /\
    ci_starts_with tag (drop (e - length tag) b) = true /\
    forall j, (e - length tag < j)%nat -> ci_starts_with tag (drop j b) = false.
Proof.
  intros E. split; [unfold extractEnvelope; now rewrite E|].
  unfold regexp_exec, exec in E.
  destruct (exec_from_some _ _ _ _ _ _ E) as (i & st & stl & Hi & Hr & Hidx & Hm & Hc & _).
  destruct (env_match_shape _ _ _ Hr) as (p & w & s4 & k & Hp & Hw & Hk & Hci & Hrest & Hlater).
  cbn [state_at rest] in Hw. cbn [Nat.add] in Hidx.
  pose proof (ci_starts_with_length _ _ Hci) as Hn. rewrite length_drop in Hn.
  set (n := length (closing_tag p)) in *.
  assert (Hlr : length (rest st) = (length s4 - k - n)%nat)
    by (rewrite Hrest, !length_drop; reflexivity).
  assert (Hlb : length (drop i b) = (length w + length s4)%nat)
    by (rewrite Hw, length_app; reflexivity).
  assert (Hlm : length (matched m) = (length w + k + n)%nat)
    by (rewrite Hm, length_take, Hlb, Hlr; lia).
  assert (Hd : forall j, drop (i + length w + j) b = drop j s4).
  { intros j. rewrite <- (drop_app_length w s4), <- Hw, !drop_drop. f_equal. lia. }
  split.
  - rewrite Hidx, Hlm, Hm. f_equal. rewrite Hlb, Hlr. lia.
  - exists p. split; [unfold group; now rewrite Hc|]. cbn zeta. fold n.
    rewrite Hidx, Hlm.
    replace (i + (length w + k + n) - n)%nat with (i + length w + k)%nat by lia.
    split; [lia|]. split; [now rewrite Hd|].
    intros j Hj. destruct (Nat.le_gt_cases j (length b)) as [Hjb|Hjb].
    + rewrite length_drop in Hlb.
      replace j with (i + length w + (j - i - length w))%nat by lia.
      rewrite Hd. apply Hlater; lia.
    + rewrite drop_ge by lia. reflexivity.
Qed.

(** C7: extracting the envelope twice gives what extracting it once gives;
    the two sample bodies of the specification give the envelope alone and
    the body unchanged. *)
Theorem extractEnvelope_idempotent :
  (forall b, extractEnvelope (extractEnvelope b) = extractEnvelope b) /\
  extractEnvelope (js "junk<a:Envelope>X</a:Envelope>more junk")
    = js "<a:Envelope>X</a:Envelope>" /\
  extractEnvelope (js "no envelope here") = js "no envelope here".
Proof.
  split; [|split; vm_compute; reflexivity].
  intros b. unfold extractEnvelope at 2 3.
  destruct (regexp_exec env_regex b) as [m|] eqn:E.
  - unfold extractEnvelope, regexp_exec. unfold regexp_exec in E.
    now rewrite (exec_matched (reflags env_regex) (pattern env_regex) _ _ eq_refl E).
  - unfold extractEnvelope. now rewrite E.
Qed.

(** ** The patterns on sample texts *)

Example env_regex_prefix_mismatch :
  extractEnvelope (js "<soap:Envelope>Y</env:Envelope>") = js "<soap:Envelope>Y</env:Envelope>".
Proof. vm_compute. reflexivity. Qed.

Example env_regex_declaration_and_case :
  extractEnvelope (js "junk<?xml version=1?>  <S:envelope>Y</s:ENVELOPE>more")
  = js "<?xml version=1?>  <S:envelope>Y</s:ENVELOPE>".
Proof. vm_compute. reflexivity. Qed.

Example bou_regex_token :
  option_map (group 1)
    (regexp_exec bou_regex (js "multipart/related; Boundary=uuid-12_ab; type=x"))
  = Some (Some (js "uuid-12_ab")).
Proof. vm_compute. reflexivity. Qed.

Example id_regex_line_anchors :
  option_map (group 1) (regexp_exec id_regex (js "X-Content-Id: <a>" ++ crlf ++ js "Content-Id: <b@c>" ++ crlf))
  = Some (Some (js "b@c")).
Proof. vm_compute. reflexivity. Qed.

Example split_on_boundary :
  split (js "XYZ") (js "--XYZ-a-XYZ--") = [js "--"; js "-a-"; js "--"].
Proof. reflexivity. Qed.

(** * The claims about the attachment parser *)

(** C1: the parse can throw.  The body refers to [cid:att1] only and has a
    part with the line [Content-Id: <att2>]: [binaries['att2']] is
    [undefined], and the write to its [mime] property is a TypeError. *)
Theorem unseeded_content_id_throws :
  handleBinaries (response_with related_XYZ) (mtom_body (js "att2")) = Throw TypeError.
Proof. vm_compute. reflexivity. Qed.

(** C2: of the two references of the body, only the first is seeded:
    [exec] is called once and reports one occurrence. *)
Theorem only_first_reference_seeded :
  handleBinaries (response_with related_XYZ) two_references
  = Ok (set_binaries (response_with related_XYZ)
          {| own := {[ js "att1" := null_attachment ]}; proto := None |}).
Proof. vm_compute. reflexivity. Qed.

(** C3: for the synthetic response with boundary [XYZ], a reference to
    [cid:att1] and the binary part of [att1], the parse gives the map
    [{att1: {mime: "image/png", data: "BINARYDATA"}}]. *)
Theorem synthetic_multipart_round_trip :
  handleBinaries (response_with related_XYZ) (mtom_body (js "att1"))
  = Ok (set_binaries (response_with related_XYZ)
          {| own := {[ js "att1" := {| mime := VStr (js "image/png");
                                       data := VStr (js "BINARYDATA") |} ]};
             proto := None |}).
Proof. vm_compute. reflexivity. Qed.


(** * More about the envelope *)

Lemma exec_span fl r s m :
  exec fl r s = Some m ->
  (index m <= length s)%nat /\
  exists post, drop (index m) s = matched m ++ post.
Proof.
  intros H. unfold exec in H.
  destruct (exec_from_some _ _ _ _ _ _ H) as (k & st & stl & Hk & Hr & Hi & Hm & _).
  cbn [Nat.add] in Hi. rewrite Hi. split; [exact Hk|].
  assert (Hin : In st (rmatch fl r (state_at None s [] k))) by (rewrite Hr; now left).
  destruct (rmatch_suffix _ _ _ _ Hin) as (w & Hw). cbn [state_at rest] in Hw.
  exists (rest st). rewrite Hm, Hw, length_app.
  replace (length w + length (rest st) - length (rest st))%nat with (length w) by lia.
  now rewrite take_app_length.
Qed.

(** X1: what [handleResponse] keeps of a textual body is one contiguous
    piece of it: nothing is added and nothing inside the piece is changed. *)
Theorem extractEnvelope_is_piece body :
  exists pre post, body = pre ++ extractEnvelope body ++ post.
Proof.
  unfold extractEnvelope. destruct (regexp_exec env_regex body) as [m|] eqn:E.
  - destruct (exec_span _ _ _ _ E) as (_ & post & Hd).
    exists (take (index m) body), post. now rewrite <- Hd, take_drop.
  - exists [], []. now rewrite app_nil_r.
Qed.

(** X2: a body in which the text [:Envelope] does not occur, in any letter
    case, is returned as it is. *)
Theorem extractEnvelope_without_envelope body :
  ci_includes (js ":Envelope") body = false -> extractEnvelope body = body.
Proof.
  intros Hn. unfold extractEnvelope.
  destruct (regexp_exec env_regex body) as [m|] eqn:E; [exfalso|reflexivity].
  unfold regexp_exec, exec in E.
  destruct (exec_from_some _ _ _ _ _ _ E) as (k & st & stl & _ & Hr & _).
  unfold env_regex in Hr. cbn [pattern reflags] in Hr.
  apply rmatch_cat_head in Hr as (st1 & ys1 & H1 & Hr).
  apply rmatch_cat_head in Hr as (st2 & ys2 & H2 & Hr).
  apply rmatch_cat_head in Hr as (st3 & ys3 & H3 & Hr).
  apply rmatch_cat_head in Hr as (st4 & ys4 & H4 & _).
  apply rmatch_suffix in H1 as (w1 & Hw1), H2 as (w2 & Hw2), H3 as (w3 & Hw3).
  cbn [rmatch] in H4.
  apply (match_lit_ci {| ignoreCase := true; multiline := false |} _ _ _ eq_refl) in H4.
  cbn [state_at rest] in Hw1.
  assert (Hd : rest st3 = drop (k + length (w1 ++ w2 ++ w3)) body).
  { rewrite <- drop_drop, Hw1, Hw2, Hw3, !app_assoc, drop_app_length. reflexivity. }
  rewrite Hd in H4. apply ci_includes_drop in H4. congruence.
Qed.

(** ** An envelope between two pieces of other text *)

Lemma canonicalize_below_letters a c :
  a < 65 -> canonicalize c = a -> c = a.
Proof.
  intros Ha. unfold canonicalize, ascii_upper.
  destruct (N.ltb_spec c 128).
  - destruct ((97 <=? c) && (c <=? 122)) eqn:E; [|auto].
    apply andb_true_iff in E as [E1 E2]. apply N.leb_le in E1, E2. lia.
  - destruct (N.ltb_spec (unicode_upper c) 128); lia.
Qed.

Lemma canonicalize_fixed a : a < 65 -> canonicalize a = a.
Proof.
  intros Ha. unfold canonicalize, ascii_upper.
  destruct (N.ltb_spec a 128); [|lia].
  destruct ((97 <=? a) && (a <=? 122)) eqn:E; [|auto].
  apply andb_true_iff in E as [E1 E2]. apply N.leb_le in E1. lia.
Qed.

Lemma char_differs a c :
  a < 65 -> c <> a -> (canonicalize a =? canonicalize c) = false.
Proof.
  intros Ha Hc. apply N.eqb_neq. rewrite (canonicalize_fixed a Ha).
  intros E. symmetry in E. now apply canonicalize_below_letters in E.
Qed.

Lemma ci_starts_with_absent a l t :
  a < 65 -> ~ In a t -> forall i, ci_starts_with (a :: l) (drop i t) = false.
Proof.
  intros Ha Hn i. destruct (drop i t) as [|c t'] eqn:E; [reflexivity|].
  cbn [ci_starts_with]. rewrite char_differs; [reflexivity|exact Ha|].
  intros ->. apply Hn. apply (In_drop _ i). rewrite E. now left.
Qed.

Lemma ci_starts_with_self l : forall t, ci_starts_with l (l ++ t) = true.
Proof.
  induction l as [|a l IH]; intros t; cbn; [reflexivity|].
  now rewrite N.eqb_refl, IH.
Qed.

(** The envelope pattern matches only where a [<] stands. *)
Lemma env_regex_needs_tag st :
  ci_starts_with (js "<") (rest st) = false ->
  rmatch (reflags env_regex) (pattern env_regex) st = [].
Proof.
  intros H. unfold env_regex. cbn [pattern reflags rmatch].
  set (fl := {| ignoreCase := true; multiline := false |}).
  pose proof (match_lit_spec fl (js "<?") st eq_refl) as Hd.
  change (js "<?") with (js "<" ++ js "?") in Hd.
  rewrite ci_starts_with_cat, H in Hd. cbn [andb] in Hd.
  change (js "<" ++ js "?") with (js "<?") in Hd. rewrite Hd.
  cbn [flat_map List.filter app]. rewrite app_nil_r.
  pose proof (match_lit_spec fl (js "<") st eq_refl) as Hl. rewrite H in Hl.
  now rewrite Hl.
Qed.

Lemma star_run_head fl cl c t cs : forall u p,
  Forall (fun x => class_matches fl cl x = true) u -> class_matches fl cl c = false ->
  exists p' tl,
    star_run fl cl p (u ++ c :: t) cs = {| prev := p'; rest := c :: t; caps := cs |} :: tl.
Proof.
  induction u as [|x u IH]; intros p Hu Hc.
  - cbn [app star_run]. rewrite Hc. eauto.
  - inversion Hu as [|? ? Hx Hu']; subst. cbn [app star_run]. rewrite Hx.
    destruct (IH (Some x) Hu' Hc) as (p' & tl & ->). cbn [app]. eauto.
Qed.

Lemma flat_map_all_nil {A B : Type} (f : A -> list B) (l : list A) :
  (forall z, In z l -> f z = []) -> flat_map f l = [].
Proof.
  induction l as [|x l IH]; cbn; intros H; [reflexivity|].
  rewrite (H x) by now left. apply IH. intros z Hz. apply H. now right.
Qed.

Lemma star_run_elems fl cl : forall s p cs z,
  In z (star_run fl cl p s cs) ->
  exists j, (j <= length s)%nat /\ z = state_at p s cs j.
Proof.
  induction s as [|c s IH]; intros p cs z; cbn [star_run].
  - intros [<-|[]]. exists 0%nat. now rewrite state_at_0.
  - assert (H0 : forall z0, {| prev := p; rest := c :: s; caps := cs |} = z0 \/ False ->
                 exists j, (j <= length (c :: s))%nat /\ z0 = state_at p (c :: s) cs j).
    { intros z0 [<-|[]]. exists 0%nat. rewrite state_at_0. split; [lia|reflexivity]. }
    destruct (class_matches fl cl c); [|apply H0].
    rewrite in_app_iff. intros [H|H]; [|now apply H0].
    apply IH in H as (j & Hj & ->). exists (S j). rewrite state_at_S. cbn [length].
    split; [lia|reflexivity].
Qed.

Section GreedyLast.

Variables (fl : flags) (cl : charclass).
Hypothesis Hall : forall c, class_matches fl cl c = true.

(** The converse of [star_all_first]: the rest of the pattern is first
    tried at the last position where it can match. *)
Lemma star_all_last (f : state -> list state) : forall s p cs k y ys,
  (k <= length s)%nat ->
  f (state_at p s cs k) = y :: ys ->
  (forall j, (k < j)%nat -> (j <= length s)%nat -> f (state_at p s cs j) = []) ->
  exists ys', flat_map f (star_run fl cl p s cs) = y :: ys'.
Proof using Hall.
  induction s as [|c s IH]; intros p cs k y ys Hk Hf Hlater.
  - cbn in Hk. replace k with 0%nat in Hf by lia. rewrite state_at_0 in Hf.
    cbn [star_run flat_map]. rewrite Hf. cbn. eauto.
  - cbn [star_run]. rewrite Hall, flat_map_app. cbn [flat_map]. rewrite app_nil_r.
    destruct k as [|k].
    + rewrite state_at_0 in Hf. rewrite Hf.
      assert (Hnil : flat_map f (star_run fl cl (Some c) s cs) = []).
      { apply flat_map_all_nil. intros z Hz.
        apply star_run_elems in Hz as (j & Hj & ->).
        specialize (Hlater (S j)). rewrite state_at_S in Hlater.
        apply Hlater; [lia|cbn [length]; lia]. }
      rewrite Hnil. cbn. eauto.
    + rewrite state_at_S in Hf. cbn [length] in Hk.
      destruct (IH (Some c) cs k y ys) as (ys' & ->); [lia|exact Hf| |].
      * intros j Hlt Hle. specialize (Hlater (S j)). rewrite state_at_S in Hlater.
        apply Hlater; [lia|cbn [length]; lia].
      * cbn. eauto.
Qed.

End GreedyLast.

Lemma rmatch_cat_intro fl r1 r2 st st1 tl y ys :
  rmatch fl r1 st = st1 :: tl -> rmatch fl r2 st1 = y :: ys ->
  exists ys', rmatch fl (r1 +++ r2) st = y :: ys'.
Proof.
  intros H1 H2. cbn [rmatch]. rewrite H1. cbn [flat_map]. rewrite H2. cbn. eauto.
Qed.

Lemma opt_literal_skipped fl l r st :
  ignoreCase fl = true -> ci_starts_with l (rest st) = false ->
  rmatch fl (Opt (Lit l +++ r)) st = [st].
Proof.
  intros Hi H. cbn [rmatch].
  pose proof (match_lit_spec fl l st Hi) as Hl. rewrite H in Hl. now rewrite Hl.
Qed.

Lemma not_colon_matches fl c :
  ignoreCase fl = true -> c <> 58 -> class_matches fl (cls_not [chr ":"]) c = true.
Proof.
  intros Hi Hc. unfold class_matches, cls_not, chr. cbn. unfold char_eq. rewrite Hi.
  change (N_of_ascii ":") with 58. now rewrite char_differs.
Qed.

Lemma colon_stops fl : ignoreCase fl = true -> class_matches fl (cls_not [chr ":"]) 58 = false.
Proof.
  intros Hi. unfold class_matches, cls_not, chr. cbn. unfold char_eq. rewrite Hi.
  change (N_of_ascii ":") with 58. now rewrite N.eqb_refl.
Qed.

(** From the start tag of an envelope whose prefix [p] has no [:] and no
    [<] and does not begin with [?], when no [<] follows the closing tag,
    the pattern first matches the envelope and nothing more. *)
Lemma env_match_exact p x post pv :
  ~ In 58 p -> ~ In 60 p -> hd_error p <> Some 63 -> ~ In 60 post ->
  exists stf stl,
    rmatch (reflags env_regex) (pattern env_regex)
      {| prev := pv;
         rest := js "<" ++ p ++ js ":Envelope" ++ x ++ closing_tag p ++ post;
         caps := [] |} = stf :: stl
    /\ rest stf = post.
Proof.
  intros Hc Hl Hq Hpost. unfold env_regex. cbn [pattern reflags].
  set (fl := {| ignoreCase := true; multiline := false |}).
  set (body := x ++ closing_tag p ++ post).
  set (st0 := {| prev := pv; rest := js "<" ++ p ++ js ":Envelope" ++ body; caps := [] |}).
  (* the declaration is not there *)
  assert (H1 : forall r, rmatch fl (Opt (Lit (js "<?") +++ r)) st0 = [st0]).
  { intros r. apply opt_literal_skipped; [reflexivity|].
    unfold st0. cbn [rest]. change (js "<" ++ p ++ js ":Envelope" ++ body)
      with (60 :: p ++ 58 :: js "Envelope" ++ body).
    change (js "<?") with [60; 63]. cbn [ci_starts_with]. rewrite N.eqb_refl. cbn [andb].
    destruct p as [|c p']; cbn [app].
    - rewrite char_differs; [reflexivity|lia|lia].
    - rewrite char_differs; [reflexivity|lia|]. intros ->. now apply Hq. }
  (* the opening angle *)
  pose proof (match_lit_spec fl (js "<") st0 eq_refl) as H2.
  replace (ci_starts_with (js "<") (rest st0)) with true in H2
    by (unfold st0; cbn; now rewrite N.eqb_refl).
  destruct H2 as (p1 & H2).
  change (drop (length (js "<")) (rest st0)) with (p ++ 58 :: js "Envelope" ++ body) in H2.
  cbn [caps st0] in H2.
  set (st1 := {| prev := p1; rest := p ++ 58 :: js "Envelope" ++ body; caps := [] |}) in H2.
  (* the prefix *)
  destruct (star_run_head fl (cls_not [chr ":"]) 58 (js "Envelope" ++ body) [] p p1)
    as (p2 & tl2 & H3).
  { apply List.Forall_forall. intros c Hin. apply not_colon_matches; [reflexivity|].
    intros ->. now apply Hc. }
  { now apply colon_stops. }
  set (st3 := set_cap 1 st1 {| prev := p2; rest := 58 :: js "Envelope" ++ body; caps := [] |}).
  assert (H3' : rmatch fl (Cap 1 (Star (cls_not [chr ":"]))) st1
                = st3 :: List.map (set_cap 1 st1) tl2).
  { cbn [rmatch]. unfold st1 at 2 3 4. cbn [prev rest caps]. rewrite H3. reflexivity. }
  assert (Hc3 : caps st3 = [(1%nat, p)]).
  { unfold st3, set_cap, consumed, st1. cbn [rest caps].
    now rewrite length_app, Nat.add_sub, take_app_length. }
  (* the name *)
  pose proof (match_lit_spec fl (js ":Envelope") st3 eq_refl) as H4.
  change (rest st3) with (js ":Envelope" ++ body) in H4.
  rewrite ci_starts_with_self, drop_app_length, Hc3 in H4. destruct H4 as (p4 & H4).
  set (st4 := {| prev := p4; rest := body; caps := [(1%nat, p)] |}) in H4.
  (* the content and the closing tag *)
  assert (H5 : exists stf stl,
    rmatch fl (Cap 2 (Star (cls [CNonSpace; CSpace])) +++ env_close) st4 = stf :: stl
    /\ rest stf = post).
  { cbn [rmatch]. rewrite flat_map_of_map. cbn [prev rest caps st4].
    assert (Hclose : forall j,
      if ci_starts_with (closing_tag p) (drop j body)
      then exists p', rmatch fl env_close (set_cap 2 st4 (state_at p4 body [(1%nat, p)] j))
                      = [{| prev := p';
                            rest := drop (length (closing_tag p)) (drop j body);
                            caps := caps (set_cap 2 st4 (state_at p4 body [(1%nat, p)] j)) |}]
      else rmatch fl env_close (set_cap 2 st4 (state_at p4 body [(1%nat, p)] j)) = []).
    { intros j. apply (rmatch_env_close fl p
        (set_cap 2 st4 (state_at p4 body [(1%nat, p)] j)) eq_refl). reflexivity. }
    pose proof (Hclose (length x)) as Hx. unfold body in Hx at 1.
    rewrite drop_app_length, ci_starts_with_self in Hx. destruct Hx as (p5 & Hx).
    edestruct (star_all_last fl _ (any_character fl)
                 (fun z => rmatch fl env_close (set_cap 2 st4 z))
                 body p4 [(1%nat, p)] (length x)) as (ys' & Hs);
      [| exact Hx | | rewrite Hs].
    - unfold body. rewrite length_app. lia.
    - intros j Hlt Hle. pose proof (Hclose j) as Hj.
      replace (ci_starts_with (closing_tag p) (drop j body)) with false in Hj; [exact Hj|].
      symmetry. unfold body. rewrite drop_app_ge by lia.
      destruct (j - length x)%nat as [|i] eqn:Ei; [lia|].
      change (closing_tag p ++ post)
        with (60 :: (47 :: p ++ js ":Envelope>") ++ post).
      cbn [drop]. change (closing_tag p) with (60 :: 47 :: p ++ js ":Envelope>").
      apply ci_starts_with_absent; [lia|].
      rewrite !in_app_iff. cbn [In app]. rewrite in_app_iff.
      intros [[E|[H|H]]|H]; [discriminate E|now apply Hl| |now apply Hpost].
      vm_compute in H. repeat (destruct H as [E|H]; [discriminate E|]). destruct H.
    - eexists _, ys'. split; [reflexivity|]. cbn [rest]. unfold body.
      now rewrite !drop_app_length. }
  destruct H5 as (stf & stl & H5 & Hrest).
  change (Lit (js "</") +++ Ref 1 +++ Lit (js ":Envelope>")) with env_close.
  assert (H4' : rmatch fl (Lit (js ":Envelope")) st3 = [st4]) by exact H4.
  assert (H2' : rmatch fl (Lit (js "<")) st0 = [st1]) by exact H2.
  destruct (rmatch_cat_intro _ _ _ _ _ _ _ _ H4' H5) as (y4 & E4).
  destruct (rmatch_cat_intro _ _ _ _ _ _ _ _ H3' E4) as (y3 & E3).
  destruct (rmatch_cat_intro _ _ _ _ _ _ _ _ H2' E3) as (y2 & E2).
  destruct (rmatch_cat_intro _ _ _ _ _ _ _ _
              (H1 (Star (cls_not [chr "?"]) +++ Lit (js "?>") +++ Star (cls [CSpace]))) E2)
    as (y1 & E1).
  exists stf, y1. split; [exact E1|exact Hrest].
Qed.

Lemma exec_from_at fl r : forall n s p i st stl,
  (n <= length s)%nat ->
  (forall k, (k < n)%nat -> rmatch fl r (state_at p s [] k) = []) ->
  rmatch fl r (state_at p s [] n) = st :: stl ->
  exec_from fl r p i s
  = Some {| index := i + n;
            matched := take (length (drop n s) - length (rest st)) (drop n s);
            captures := caps st |}.
Proof.
  induction n as [|n IH]; intros s p i st stl Hn Hbefore Hat.
  - rewrite state_at_0 in Hat. rewrite (exec_from_head _ _ _ _ _ _ _ Hat), Nat.add_0_r.
    reflexivity.
  - destruct s as [|c s]; [cbn in Hn; lia|].
    pose proof (Hbefore 0%nat (Nat.lt_0_succ _)) as H0. rewrite state_at_0 in H0.
    cbn [exec_from]. rewrite H0. rewrite state_at_S in Hat.
    rewrite (IH s (Some c) (S i) st stl); [| cbn in Hn; lia | | exact Hat].
    + cbn [drop]. now rewrite Nat.add_succ_r.
    + intros k Hk. specialize (Hbefore (S k)). rewrite state_at_S in Hbefore.
      apply Hbefore. lia.
Qed.

(** X3: text before and after the envelope is removed.  For a body made of
    text without [<], an envelope whose prefix holds neither [:] nor [<] and
    does not begin with [?], and again text without [<], what is kept is
    the envelope, from its start tag to its closing tag, whatever stands
    between the two tags. *)
Theorem extractEnvelope_drops_surrounding_text pre p x post :
  includes (js "<") pre = false ->
  includes (js ":") p = false -> includes (js "<") p = false ->
  starts_with (js "?") p = false ->
  includes (js "<") post = false ->
  extractEnvelope (pre ++ (js "<" ++ p ++ js ":Envelope" ++ x ++ closing_tag p) ++ post)
  = js "<" ++ p ++ js ":Envelope" ++ x ++ closing_tag p.
Proof.
  intros Hpre Hc Hl Hq Hpost.
  apply includes_char_In in Hpre, Hc, Hl, Hpost.
  assert (Hq' : hd_error p <> Some 63).
  { destruct p as [|c p']; [discriminate|]. cbn in Hq. intros [= ->]. discriminate Hq. }
  set (E := js "<" ++ p ++ js ":Envelope" ++ x ++ closing_tag p).
  destruct (env_match_exact p x post (prev_at None (pre ++ E ++ post) (length pre))
              Hc Hl Hq' Hpost) as (stf & stl & Hm & Hrest).
  unfold extractEnvelope, regexp_exec, exec.
  rewrite (exec_from_at _ _ (length pre) _ _ _ stf stl).
  - cbn [matched]. rewrite drop_app_length, Hrest, length_app, Nat.add_sub.
    now rewrite take_app_length.
  - rewrite length_app. lia.
  - intros k Hk. apply env_regex_needs_tag. cbn [state_at rest].
    rewrite drop_app_le by lia.
    destruct (drop k pre) as [|c t] eqn:Ed.
    + apply (f_equal (@length N)) in Ed. rewrite length_drop in Ed. cbn in Ed. lia.
    + change (js "<") with [60]. cbn [app ci_starts_with].
      rewrite char_differs; [reflexivity|lia|].
      intros ->. apply Hpre. apply (In_drop _ k). rewrite Ed. now left.
  - unfold state_at. rewrite drop_app_length. rewrite <- Hm. unfold E.
    now rewrite <- !app_assoc.
Qed.

(** * More about the attachment parser *)

Lemma same_shape_refl b : same_shape b b.
Proof. split; intros; reflexivity. Qed.

Lemma same_shape_trans b1 b2 b3 :
  same_shape b1 b2 -> same_shape b2 b3 -> same_shape b1 b3.
Proof.
  intros [H1 P1] [H2 P2]. split.
  - intros j. now rewrite H2, H1.
  - now rewrite P2, P1.
Qed.

Lemma resolve_own b k a : resolve b k = SOwn a -> own b !! k = Some a.
Proof.
  unfold resolve. destruct (jsstring_eqb k (js "__proto__")).
  - destruct (proto b); discriminate.
  - destruct (own b !! k) as [a'|]; [now intros [= ->]|].
    destruct (proto b); repeat (destruct (mem _ _)); discriminate.
Qed.

Lemma assign_shape b k upd b' : assign b k upd = Ok b' -> same_shape b b'.
Proof.
  unfold assign. destruct (resolve b k) as [a|a| |] eqn:E; intros [= <-].
  - apply resolve_own in E. split; cbn [own proto]; [|reflexivity].
    intros j. destruct (decide (k = j)) as [<-|Hne].
    + rewrite lookup_insert_eq, E. split; discriminate.
    + now rewrite lookup_insert_ne.
  - split; cbn [own proto]; [reflexivity|].
    unfold resolve in E. destruct (jsstring_eqb k (js "__proto__")).
    + destruct (proto b); [split; discriminate|discriminate].
    + destruct (own b !! k); [discriminate|].
      destruct (proto b); repeat (destruct (mem _ _)); discriminate.
  - apply same_shape_refl.
Qed.

Lemma same_shape_primitive b b' k :
  same_shape b b' -> resolve b k = SPrimitive -> resolve b' k = SPrimitive.
Proof.
  intros [Ho Hp]. unfold resolve. destruct (jsstring_eqb k (js "__proto__")).
  - destruct (proto b); discriminate.
  - destruct (own b !! k) as [a|] eqn:E; [discriminate|].
    apply Ho in E. rewrite E.
    destruct (proto b) as [pa|], (proto b') as [pa'|]; try tauto.
    + exfalso. assert (H : @None attachment = None) by reflexivity.
      apply Hp in H. discriminate.
    + exfalso. assert (H : @None attachment = None) by reflexivity.
      apply Hp in H. discriminate.
Qed.

Lemma handle_part_shape b part b' : handle_part b part = Ok b' -> same_shape b b'.
Proof.
  unfold handle_part. destruct (regexp_exec id_regex part) as [pm|];
    [|intros [= <-]; apply same_shape_refl].
  destruct (regexp_exec mim_regex part) as [mm|].
  - destruct (assign b _ _) as [b1|] eqn:E1; cbn [bind]; [|discriminate].
    apply assign_shape in E1. destruct (Nat.ltb 0 _).
    + intros E2. apply assign_shape in E2. eapply same_shape_trans; eauto.
    + now intros [= <-].
  - cbn [bind]. destruct (Nat.ltb 0 _).
    + apply assign_shape.
    + intros [= <-]. apply same_shape_refl.
Qed.

Lemma handle_parts_shape parts : forall b b',
  handle_parts b parts = Ok b' -> same_shape b b'.
Proof.
  induction parts as [|part parts IH]; intros b b'; cbn [handle_parts].
  - intros [= <-]. apply same_shape_refl.
  - destruct (handle_part b part) as [b1|] eqn:E; cbn [bind]; [|discriminate].
    apply handle_part_shape in E. intros H. apply IH in H.
    eapply same_shape_trans; eauto.
Qed.

Lemma seed_matches_first m b : seed_matches m b = seed b (key_of (group 1 m)).
Proof. reflexivity. Qed.

(** X4: the attachment map never has more than one entry, and its key is
    the identifier of the first [xop:Include] reference of the body; the
    headers of the response are left as they are. *)
Theorem handleBinaries_single_entry res body res' :
  handleBinaries res body = Ok res' ->
  headers res' = headers res /\
  exists b, binaries res' = Some b /\
    forall k, own b !! k <> None ->
      exists m, regexp_exec inc_regex body = Some m /\ k = key_of (group 1 m).
Proof.
  unfold handleBinaries.
  destruct (regexp_exec bou_regex (content_type res)) as [bm|];
    [destruct (regexp_exec inc_regex body) as [im|]|]; cbn [bind].
  - destruct (handle_parts _ _) as [b|] eqn:E; cbn [bind]; [|discriminate].
    intros [= <-]. split; [reflexivity|]. exists b. split; [reflexivity|].
    intros k Hk. exists im. split; [reflexivity|].
    apply handle_parts_shape in E as [Ho _].
    rewrite seed_matches_first in Ho. specialize (Ho k).
    unfold seed in Ho. destruct (jsstring_eqb _ _); cbn [own empty_binaries] in Ho.
    + exfalso. apply Hk, Ho. apply lookup_empty.
    + destruct (decide (key_of (group 1 im) = k)) as [<-|Hne]; [reflexivity|].
      exfalso. apply Hk, Ho. rewrite lookup_insert_ne by exact Hne. apply lookup_empty.
  - intros [= <-]. split; [reflexivity|]. exists empty_binaries. split; [reflexivity|].
    intros k Hk. exfalso. apply Hk. apply lookup_empty.
  - intros [= <-]. split; [reflexivity|]. exists empty_binaries. split; [reflexivity|].
    intros k Hk. exfalso. apply Hk. apply lookup_empty.
Qed.

Lemma split_at_nonempty sep : forall s k acc, (0 < length (split_at sep k acc s))%nat.
Proof.
  induction s as [|c s IH]; intros k acc; cbn [split_at]; [cbn; lia|].
  destruct k; [|apply IH]. destruct (starts_with sep (c :: s)); [cbn; lia|apply IH].
Qed.

Lemma handle_part_throws b part pm :
  regexp_exec id_regex part = Some pm ->
  resolve b (key_of (group 1 pm)) = SPrimitive ->
  handle_part b part = Throw TypeError.
Proof.
  intros Hid Hr. unfold handle_part. rewrite Hid.
  destruct (regexp_exec mim_regex part) as [mm|].
  - unfold assign at 1. now rewrite Hr.
  - cbn [bind].
    replace (Nat.ltb 0 _) with true.
    + unfold assign. now rewrite Hr.
    + symmetry. apply Nat.ltb_lt.
      destruct (includes crlf part); apply split_at_nonempty.
Qed.

Lemma handle_parts_throws part pm parts : forall b,
  In part parts ->
  regexp_exec id_regex part = Some pm ->
  resolve b (key_of (group 1 pm)) = SPrimitive ->
  handle_parts b parts = Throw TypeError.
Proof.
  induction parts as [|q parts IH]; intros b Hin Hid Hr; [destruct Hin|].
  cbn [handle_parts]. destruct Hin as [->|Hin].
  - now rewrite (handle_part_throws _ _ _ Hid Hr).
  - destruct (handle_part b q) as [b1|[]] eqn:E; cbn [bind]; [|reflexivity].
    apply handle_part_shape in E. apply IH; auto.
    eapply same_shape_primitive; eauto.
Qed.

(** X5: when a boundary and a reference are found, any part after the
    first whose [Content-Id] line names an identifier other than the one of
    the first reference (and other than [__proto__] and the names every
    object inherits) makes the parse throw a TypeError: the response gets no
    attachment map. *)
Theorem handleBinaries_throws_on_unreferenced_part res body bm im part pm :
  regexp_exec bou_regex (content_type res) = Some bm ->
  regexp_exec inc_regex body = Some im ->
  In part (drop 1 (match group 1 bm with
                   | Some sep => split sep body
                   | None => [body]
                   end)) ->
  regexp_exec id_regex part = Some pm ->
  key_of (group 1 pm) <> key_of (group 1 im) ->
  key_of (group 1 pm) <> js "__proto__" ->
  mem (key_of (group 1 pm)) object_prototype_names = false ->
  handleBinaries res body = Throw TypeError.
Proof.
  intros Hb Hi Hin Hid Hne Hnp Hnames. unfold handleBinaries. rewrite Hb, Hi.
  rewrite (handle_parts_throws part pm _ _ Hin Hid); [reflexivity|].
  rewrite seed_matches_first.
  unfold resolve, seed, jsstring_eqb.
  rewrite (bool_decide_eq_false_2 _ Hnp).
  destruct (bool_decide (key_of (group 1 im) = js "__proto__"));
    cbn [own proto empty_binaries].
  - rewrite lookup_empty, Hnames.
    destruct (mem (key_of (group 1 pm)) [js "mime"; js "data"]); reflexivity.
  - rewrite lookup_insert_ne by (intros E; apply Hne; now rewrite E).
    now rewrite lookup_empty, Hnames.
Qed.

Lemma handle_parts_referenced s parts : forall a,
  s <> js "__proto__" ->
  (forall part pm, In part parts -> regexp_exec id_regex part = Some pm ->
                   key_of (group 1 pm) = s) ->
  exists a', handle_parts {| own := {[ s := a ]}; proto := None |} parts
             = Ok {| own := {[ s := a' ]}; proto := None |}.
Proof.
  intros a Hs. revert a.
  assert (Hassign : forall a upd,
    assign {| own := {[ s := a ]}; proto := None |} s upd
    = Ok {| own := {[ s := upd a ]}; proto := None |}).
  { intros a upd. unfold assign, resolve, jsstring_eqb.
    rewrite (bool_decide_eq_false_2 _ Hs). cbn [own proto].
    rewrite lookup_singleton_eq. now rewrite insert_singleton_eq. }
  induction parts as [|q parts IH]; intros a Hall; cbn [handle_parts]; [eauto|].
  assert (Hq : exists a1, handle_part {| own := {[ s := a ]}; proto := None |} q
                          = Ok {| own := {[ s := a1 ]}; proto := None |}).
  { unfold handle_part. destruct (regexp_exec id_regex q) as [pm|] eqn:Eid; [|eauto].
    rewrite (Hall q pm (or_introl eq_refl) Eid).
    destruct (regexp_exec mim_regex q) as [mm|]; [rewrite Hassign|]; cbn [bind];
      (destruct (Nat.ltb 0 _); [rewrite Hassign|]); eauto. }
  destruct Hq as (a1 & ->). cbn [bind]. apply IH.
  intros part pm Hin. apply Hall. now right.
Qed.

(** X6: when a boundary and a reference are found and every [Content-Id]
    line of the parts names the identifier of the first reference, the parse
    does not throw, and the map has that identifier as its only key. *)
Theorem handleBinaries_referenced_parts res body bm im :
  regexp_exec bou_regex (content_type res) = Some bm ->
  regexp_exec inc_regex body = Some im ->
  key_of (group 1 im) <> js "__proto__" ->
  (forall part pm,
     In part (drop 1 (match group 1 bm with
                      | Some sep => split sep body
                      | None => [body]
                      end)) ->
     regexp_exec id_regex part = Some pm ->
     key_of (group 1 pm) = key_of (group 1 im)) ->
  exists a, handleBinaries res body
            = Ok (set_binaries res {| own := {[ key_of (group 1 im) := a ]};
                                      proto := None |}).
Proof.
  intros Hb Hi Hs Hall. unfold handleBinaries. rewrite Hb, Hi.
  rewrite seed_matches_first. unfold seed, jsstring_eqb.
  rewrite (bool_decide_eq_false_2 _ Hs). cbn [own proto empty_binaries].
  change (<[key_of (group 1 im):=null_attachment]> ∅)
    with ({[ key_of (group 1 im) := null_attachment ]} : gmap jsstring attachment).
  destruct (handle_parts_referenced _ _ null_attachment Hs Hall) as (a & ->).
  cbn [bind]. eauto.
Qed.

End HttpClient.

(** * The claims about buildRequest *)

Section RequestProperties.

Variable VERSION : jsstring.
Variable url_parse : jsstring -> url_object.

(** The text of a Number beyond 2^53, as the engine prints it. *)
Variable number_text : Z -> jsstring.

Local Abbreviation buildRequest := (buildRequest VERSION url_parse number_text).

Lemma assign_all_lookup {A : Type} (src : option (gmap jsstring A)) dst k :
  assign_all src dst !! k
  = if jsstring_eqb k (js "__proto__") then dst !! k
    else match get k src with
         | Some v => Some v
         | None => dst !! k
         end.
Proof.
  destruct src as [m|]; cbn [assign_all get]; [|now destruct (jsstring_eqb _ _)].
  apply (map_fold_weak_ind (fun r m =>
    r !! k = if jsstring_eqb k (js "__proto__") then dst !! k
             else match m !! k with
                  | Some v => Some v
                  | None => dst !! k
                  end)).
  - rewrite lookup_empty. now destruct (jsstring_eqb _ _).
  - intros i x m' r Hi IH. unfold set_prop, jsstring_eqb in *.
    destruct (decide (k = js "__proto__")) as [Hk|Hk].
    + rewrite (bool_decide_eq_true_2 _ Hk) in *.
      destruct (decide (i = js "__proto__")) as [Hip|Hip].
      * now rewrite (bool_decide_eq_true_2 _ Hip).
      * rewrite (bool_decide_eq_false_2 _ Hip), lookup_insert_ne by congruence. exact IH.
    + rewrite (bool_decide_eq_false_2 _ Hk) in *.
      destruct (decide (i = js "__proto__")) as [Hip|Hip].
      * rewrite (bool_decide_eq_true_2 _ Hip), (lookup_insert_ne m') by congruence. exact IH.
      * rewrite (bool_decide_eq_false_2 _ Hip).
        destruct (decide (i = k)) as [->|Hne].
        -- now rewrite !lookup_insert_eq.
        -- rewrite !lookup_insert_ne by exact Hne. exact IH.
Qed.

Ltac distinct_keys := let H := fresh in intros H; vm_compute in H; discriminate H.

Lemma buildRequest_method rurl data exheaders exoptions :
  get (js "method") exoptions = None ->
  buildRequest rurl data exheaders exoptions !! js "method"
  = Some (OVal (VStr (if truthy data then js "POST" else js "GET"))).
Proof.
  intros H. unfold buildRequest. cbv zeta. rewrite assign_all_lookup, H.
  change (jsstring_eqb (js "method") (js "__proto__")) with false. cbv iota.
  destruct (is_string _ _);
    rewrite ?(lookup_insert_ne _ (js "body")) by distinct_keys;
    rewrite (lookup_insert_ne _ (js "followAllRedirects")) by distinct_keys;
    rewrite (lookup_insert_ne _ (js "headers")) by distinct_keys;
    now rewrite lookup_insert_eq.
Qed.

Lemma buildRequest_header rurl data exheaders exoptions k v :
  get (js "headers") exoptions = None ->
  get k exheaders = Some v -> k <> js "__proto__" ->
  header k (buildRequest rurl data exheaders exoptions) = Some v.
Proof.
  intros Ho Hk Hne. unfold header, buildRequest. cbv zeta. rewrite assign_all_lookup, Ho.
  change (jsstring_eqb (js "headers") (js "__proto__")) with false. cbv iota.
  destruct (is_string _ _);
    rewrite ?(lookup_insert_ne _ (js "body")) by distinct_keys;
    rewrite (lookup_insert_ne _ (js "followAllRedirects")) by distinct_keys;
    rewrite lookup_insert_eq, assign_all_lookup, Hk;
    unfold jsstring_eqb; now rewrite bool_decide_eq_false_2.
Qed.

Lemma buildRequest_host rurl data exheaders exoptions :
  get (js "headers") exoptions = None -> get (js "Host") exheaders = None ->
  header (js "Host") (buildRequest rurl data exheaders exoptions)
  = Some (VStr (to_string (hostname (url_parse rurl)) ++
                match parseInt (to_string (port (url_parse rurl))) with
                | None => []
                | Some n => js ":" ++ number_to_string number_text n
                end)).
Proof.
  intros Ho Hh. unfold header, buildRequest. cbv zeta. rewrite assign_all_lookup, Ho.
  change (jsstring_eqb (js "headers") (js "__proto__")) with false. cbv iota.
  destruct (is_string _ _);
    rewrite ?(lookup_insert_ne _ (js "body")) by distinct_keys;
    rewrite (lookup_insert_ne _ (js "followAllRedirects")) by distinct_keys;
    rewrite lookup_insert_eq, assign_all_lookup, Hh;
    change (jsstring_eqb (js "Host") (js "__proto__")) with false; cbv iota;
    destruct data;
    rewrite ?(lookup_insert_ne _ (js "Content-Type")) by distinct_keys;
    rewrite ?(lookup_insert_ne _ (js "Content-Length")) by distinct_keys;
    now rewrite lookup_insert_eq.
Qed.

(** C8, as amended: when the extra options do not themselves set [method],
    the built request has method GET for a payload that is [null], absent or
    the empty string, and POST for a non-empty string or an object, whatever
    the URL and the extra headers are.  For the URL [http://h:8080/p] and the
    payload [null], with no extra header named [Host] and no extra option
    named [headers], the method is GET and the Host header is [h:8080]. *)
Theorem buildRequest_selects_method rurl data exheaders exoptions :
  get (js "method") exoptions = None ->
  let options := buildRequest rurl data exheaders exoptions in
  options !! js "method"
    = Some (OVal (VStr (if truthy data then js "POST" else js "GET"))) /\
  (data = VNull \/ data = VUndefined \/ data = VStr [] ->
   options !! js "method" = Some (OVal (VStr (js "GET")))) /\
  ((exists c s, data = VStr (c :: s)) \/ (exists id, data = VObject id) ->
   options !! js "method" = Some (OVal (VStr (js "POST")))) /\
  (rurl = js "http://h:8080/p" -> url_parse rurl = url_h_8080 -> data = VNull ->
   get (js "Host") exheaders = None -> get (js "headers") exoptions = None ->
   options !! js "method" = Some (OVal (VStr (js "GET"))) /\
   header (js "Host") options = Some (VStr (js "h:8080"))).
Proof.
  intros Hm options. unfold options.
  pose proof (buildRequest_method rurl data exheaders exoptions Hm) as H.
  split; [exact H|]. split; [|split].
  - intros [->|[->| ->]]; exact H.
  - intros [(c & s & ->)|(id & ->)]; exact H.
  - intros _ Hu -> Hh Ho. split; [exact H|].
    rewrite (buildRequest_host _ _ _ _ Ho Hh), Hu. reflexivity.
Qed.

(** C9: extra headers override the defaults of the same name.  When the
    extra options set neither [headers] nor [body], every extra header is in
    the built request with the value the caller gave; with the extra headers
    [{Connection: "keep-alive"}] the Connection header is [keep-alive] and the
    body of the description is the payload, for every URL and payload. *)
Theorem extra_headers_override rurl data exoptions :
  get (js "headers") exoptions = None -> get (js "body") exoptions = None ->
  (forall exheaders k v,
     get k exheaders = Some v -> k <> js "__proto__" ->
     header k (buildRequest rurl data exheaders exoptions) = Some v) /\
  let options :=
    buildRequest rurl data (Some {[ js "Connection" := VStr (js "keep-alive") ]}) exoptions in
  header (js "Connection") options = Some (VStr (js "keep-alive")) /\
  options !! js "body" = Some (OVal data).
Proof.
  intros Hh Hb. split; [intros; now apply buildRequest_header|].
  cbv zeta. split.
  - apply buildRequest_header; [exact Hh| |distinct_keys].
    cbn [get]. apply lookup_singleton_eq.
  - unfold buildRequest. cbv zeta. rewrite !assign_all_lookup, Hb.
    change (jsstring_eqb (js "body") (js "__proto__")) with false.
    change (jsstring_eqb (js "Connection") (js "__proto__")) with false.
    cbv iota. cbn [get]. rewrite lookup_singleton_eq.
    change (is_string (js "keep-alive") (Some (VStr (js "keep-alive")))) with true.
    cbv iota. now rewrite lookup_insert_eq.
Qed.

End RequestProperties.

(** * The claims at sample inputs *)





(** C6, counterexample: with two closing tags after the start tag, the
    span runs to the second one, not to the earliest. *)
Lemma envelope_span_not_earliest :
  extractEnvelope ascii_table two_closing_tags = two_closing_tags
  /\ extractEnvelope ascii_table two_closing_tags <> js "<a:Envelope>X</a:Envelope>".
Proof.
  assert (H : extractEnvelope ascii_table two_closing_tags = two_closing_tags)
    by (vm_compute; reflexivity).
  split; [exact H|]. rewrite H. intros E. vm_compute in E. discriminate E.
Qed.

(** C6, at a sample input. *)
Lemma envelope_ends_at_last_closing_tag_witness :
  exists m,
    regexp_exec ascii_table env_regex two_closing_tags = Some m /\
    extractEnvelope ascii_table two_closing_tags = matched m.
Proof.
  eexists. split; [vm_compute; reflexivity|].
  apply (envelope_ends_at_last_closing_tag ascii_table two_closing_tags).
  vm_compute. reflexivity.
Defined.

(** C8, counterexample: the extra options set the method, and the payload
    [null] does not give GET. *)
Lemma extra_options_replace_method :
  buildRequest version_sample url_parse_sample number_text_sample (js "http://h:8080/p") VNull None
    (Some {[ js "method" := OVal (VStr (js "PUT")) ]}) !! js "method"
  = Some (OVal (VStr (js "PUT"))).
Proof. vm_compute. reflexivity. Qed.

(** C8, at the sample input of the specification. *)
Lemma buildRequest_selects_method_witness :
  buildRequest version_sample url_parse_sample number_text_sample (js "http://h:8080/p") VNull None None
    !! js "method" = Some (OVal (VStr (js "GET")))
  /\ header (js "Host")
       (buildRequest version_sample url_parse_sample number_text_sample (js "http://h:8080/p") VNull None None)
     = Some (VStr (js "h:8080")).
Proof.
  destruct (buildRequest_selects_method version_sample url_parse_sample number_text_sample
              (js "http://h:8080/p") VNull None None eq_refl) as (_ & _ & _ & H).
  apply H; reflexivity.
Defined.

(** C9, at a sample input. *)
Lemma extra_headers_override_witness :
  header (js "Connection")
    (buildRequest version_sample url_parse_sample number_text_sample (js "http://h:8080/p") (VStr (js "<x/>"))
       (Some {[ js "Connection" := VStr (js "keep-alive") ]}) None)
  = Some (VStr (js "keep-alive"))
  /\ buildRequest version_sample url_parse_sample number_text_sample (js "http://h:8080/p") (VStr (js "<x/>"))
       (Some {[ js "Connection" := VStr (js "keep-alive") ]}) None !! js "body"
     = Some (OVal (VStr (js "<x/>"))).
Proof.
  apply (extra_headers_override version_sample url_parse_sample number_text_sample
           (js "http://h:8080/p") (VStr (js "<x/>")) None); reflexivity.
Defined.

(** C10, counterexample: the header ends with its boundary parameter and
    no semicolon follows it, but the text [boundary=q;] stands earlier, inside
    the parameter [x-boundary]: the pattern is not anchored, the boundary [q]
    is extracted and the map is seeded. *)
Lemma earlier_boundary_text_is_extracted :
  option_map (group 1)
    (regexp_exec ascii_table bou_regex
       (content_type (response_with (js "multipart/related; x-boundary=q; boundary=XYZ"))))
  = Some (Some (js "q"))
  /\ handleBinaries ascii_table
       (response_with (js "multipart/related; x-boundary=q; boundary=XYZ")) two_references
     = Ok (set_binaries (response_with (js "multipart/related; x-boundary=q; boundary=XYZ"))
             {| own := {[ js "att1" := null_attachment ]}; proto := None |})
  /\ handleBinaries ascii_table
       (response_with (js "multipart/related; x-boundary=q; boundary=XYZ")) two_references
     <> Ok (set_binaries (response_with (js "multipart/related; x-boundary=q; boundary=XYZ"))
              empty_binaries).
Proof.
  assert (H : handleBinaries ascii_table
                (response_with (js "multipart/related; x-boundary=q; boundary=XYZ"))
                two_references
              = Ok (set_binaries
                      (response_with (js "multipart/related; x-boundary=q; boundary=XYZ"))
                      {| own := {[ js "att1" := null_attachment ]}; proto := None |}))
    by (vm_compute; reflexivity).
  split; [vm_compute; reflexivity|]. split; [exact H|].
  rewrite H. intros E. vm_compute in E. discriminate E.
Qed.

(** C10, at the sample header of the claim. *)
Lemma boundary_without_semicolon_empty_map_witness :
  regexp_exec ascii_table bou_regex
    (content_type (response_with (js "multipart/related; boundary=XYZ"))) = None
  /\ handleBinaries ascii_table (response_with (js "multipart/related; boundary=XYZ"))
       two_references
     = Ok (set_binaries (response_with (js "multipart/related; boundary=XYZ")) empty_binaries).
Proof.
  apply (boundary_without_semicolon_empty_map ascii_table
           (response_with (js "multipart/related; boundary=XYZ"))
           (js "multipart/related; ") (js "boundary=") (js "XYZ"));
    vm_compute; reflexivity.
Defined.

(** * More about the strings of the attachment parser *)

Lemma split_at_skip sep : forall u acc t,
  split_at sep (length u) acc (u ++ t) = split_at sep 0 acc t.
Proof. induction u as [|c u IH]; intros acc t; cbn; auto. Qed.

Lemma starts_with_prefix sep : forall s,
  starts_with sep s = true -> s = sep ++ drop (length sep) s.
Proof.
  induction sep as [|a sep IH]; intros s; cbn; [now destruct s|].
  destruct s as [|c s]; [discriminate|].
  intros H. apply andb_true_iff in H as [Ha H]. apply N.eqb_eq in Ha. subst c.
  cbn [drop]. f_equal. now apply IH.
Qed.

Lemma join_cons sep x l :
  (0 < length l)%nat -> join sep (x :: l) = x ++ sep ++ join sep l.
Proof. destruct l; cbn; [lia|reflexivity]. Qed.

Lemma join_split_at a sep : forall n s acc,
  (length s <= n)%nat ->
  join (a :: sep) (split_at (a :: sep) 0 acc s) = rev acc ++ s.
Proof.
  induction n as [|n IH]; intros s acc Hn.
  - destruct s; [|cbn in Hn; lia]. cbn. now rewrite app_nil_r.
  - destruct s as [|c s]; [cbn; now rewrite app_nil_r|].
    cbn [split_at]. destruct (starts_with (a :: sep) (c :: s)) eqn:E.
    + apply starts_with_prefix in E. cbn [length drop app] in E.
      injection E as -> Hs. rewrite join_cons by apply split_at_nonempty.
      cbn [length]. replace (S (length sep) - 1)%nat with (length sep) by lia.
      rewrite Hs at 1. rewrite split_at_skip, IH.
      * cbn [rev app]. now rewrite <- Hs.
      * rewrite length_drop. cbn in Hn. lia.
    + rewrite IH by (cbn in Hn; lia). cbn [rev]. now rewrite <- app_assoc.
Qed.

(** X7: the parts into which a text is split, joined again with the
    separator, give the text back: splitting the body on the boundary, or a
    part on its line ends, loses nothing.  (An empty separator splits between
    all characters.) *)
Theorem join_split sep s : join sep (split sep s) = s.
Proof.
  destruct sep as [|a sep].
  - cbn [split]. induction s as [|c s IH]; [reflexivity|].
    cbn [List.map]. destruct s as [|c' s]; [reflexivity|].
    rewrite join_cons by (cbn; lia). rewrite IH. reflexivity.
  - unfold split. now rewrite (join_split_at a sep (length s)).
Qed.

Lemma byteLength_bounds_upto : forall n s,
  (length s <= n)%nat ->
  (length s <= byteLength s <= 3 * length s)%nat.
Proof.
  induction n as [|n IH]; intros s Hn.
  - destruct s; [cbn; lia|cbn in Hn; lia].
  - destruct s as [|c t]; [cbn; lia|]. cbn [byteLength length] in *.
    assert (Ht := IH t ltac:(lia)).
    destruct (c <? 128); [lia|]. destruct (c <? 2048); [lia|].
    destruct t as [|c' t']; [cbn; lia|].
    cbn [length] in *. assert (Ht' := IH t' ltac:(lia)).
    destruct ((55296 <=? c) && (c <=? 56319) && (56320 <=? c') && (c' <=? 57343)); lia.
Qed.

Lemma byteLength_ascii s :
  forallb (fun c => c <? 128) s = true -> byteLength s = length s.
Proof.
  induction s as [|c s IH]; [reflexivity|]. cbn [forallb byteLength length].
  intros H. apply andb_true_iff in H as [Hc H]. rewrite Hc, IH by exact H. reflexivity.
Qed.

(** * More about buildRequest *)

Lemma digits_value_acc d : forall acc,
  digits_value (Z.pos acc) (uint_chars d) = Z.pos (Pos.of_uint_acc d acc).
Proof.
  induction d as [|d IH|d IH|d IH|d IH|d IH|d IH|d IH|d IH|d IH|d IH]; intros acc;
    cbn [uint_chars digits_value Pos.of_uint_acc]; [reflexivity|..];
    (match goal with |- context [is_digit ?c] => change (is_digit c) with true end);
    cbv iota; rewrite <- IH; f_equal; cbn; lia.
Qed.

Lemma digits_value_of_uint d :
  digits_value 0 (uint_chars d) = Z.of_N (Pos.of_uint d).
Proof.
  induction d as [|d IH|d IH|d IH|d IH|d IH|d IH|d IH|d IH|d IH|d IH];
    cbn [uint_chars digits_value Pos.of_uint]; [reflexivity|..];
    (match goal with |- context [is_digit ?c] => change (is_digit c) with true end);
    cbv iota; [exact IH|..]; cbn [Z.of_N]; rewrite <- digits_value_acc; reflexivity.
Qed.

(** The decimal numeral of a natural number is read back by [parseInt]. *)
Lemma parseInt_decimal (n : N) :
  parseInt (decimal (Z.of_N n)) = Some (Z.of_N n).
Proof.
  destruct n as [|p]; [reflexivity|]. cbn [Z.of_N decimal].
  pose proof (digits_value_of_uint (Pos.to_uint p)) as H.
  rewrite Unsigned.of_to in H. cbn [Z.of_N] in H.
  destruct (Pos.to_uint p) as [|d|d|d|d|d|d|d|d|d|d]; [discriminate H|..];
    unfold parseInt; cbn [uint_chars skip_space];
    (match goal with |- context [is_space ?c] => change (is_space c) with false end);
    cbv iota;
    (match goal with |- context [is_digit ?c] => change (is_digit c) with true end);
    cbv iota; rewrite <- H; cbn [uint_chars]; f_equal; lia.
Qed.

Section RequestDetails.

Variable VERSION : jsstring.
Variable url_parse : jsstring -> url_object.

(** The text of a Number beyond 2^53, as the engine prints it. *)
Variable number_text : Z -> jsstring.

Local Abbreviation buildRequest := (buildRequest VERSION url_parse number_text).

Ltac other_key := let H := fresh in intros H; vm_compute in H; discriminate H.

(** Reads [header k] of a built request whose extra headers lack [k]. *)
Ltac read_header k Ho Hh :=
  unfold header, buildRequest; cbv zeta; rewrite assign_all_lookup, Ho;
  change (jsstring_eqb (js "headers") (js "__proto__")) with false; cbv iota;
  destruct (is_string _ _);
  rewrite ?(lookup_insert_ne _ (js "body")) by other_key;
  rewrite (lookup_insert_ne _ (js "followAllRedirects")) by other_key;
  rewrite lookup_insert_eq, assign_all_lookup, Hh;
  change (jsstring_eqb k (js "__proto__")) with false; cbv iota.

(** X8: for a string payload, unless the caller's headers say otherwise,
    Content-Length is the length of the payload in UTF-8 bytes, which is at
    least its number of code units, at most three times that, and equal to
    it for an ASCII payload; Content-Type is the form encoding. *)
Theorem string_payload_headers rurl d exheaders exoptions :
  get (js "headers") exoptions = None ->
  get (js "Content-Length") exheaders = None ->
  get (js "Content-Type") exheaders = None ->
  let options := buildRequest rurl (VStr d) exheaders exoptions in
  header (js "Content-Length") options = Some (VNum (Z.of_nat (byteLength d))) /\
  header (js "Content-Type") options
    = Some (VStr (js "application/x-www-form-urlencoded")) /\
  (length d <= byteLength d <= 3 * length d)%nat /\
  (forallb (fun c => c <? 128) d = true -> byteLength d = length d).
Proof.
  intros Ho Hl Ht. cbv zeta. split; [|split; [|split]].
  - read_header (js "Content-Length") Ho Hl;
      rewrite (lookup_insert_ne _ (js "Content-Type")) by other_key;
      now rewrite lookup_insert_eq.
  - read_header (js "Content-Type") Ho Ht; now rewrite lookup_insert_eq.
  - now apply (byteLength_bounds_upto (length d)).
  - apply byteLength_ascii.
Qed.


(** X10: unless the caller's headers or options say otherwise, the Host
    header is the host name alone for a URL without a port, and the host
    name, a colon and the port for a URL whose port is written as the
    decimal numeral of a number up to 2^53. *)
Theorem host_header_port rurl data exheaders exoptions :
  get (js "headers") exoptions = None -> get (js "Host") exheaders = None ->
  let options := buildRequest rurl data exheaders exoptions in
  (port (url_parse rurl) = None ->
   header (js "Host") options = Some (VStr (to_string (hostname (url_parse rurl))))) /\
  (forall n : N,
     (Z.of_N n <= exact_limit)%Z ->
     port (url_parse rurl) = Some (decimal (Z.of_N n)) ->
     header (js "Host") options
     = Some (VStr (to_string (hostname (url_parse rurl)) ++ js ":"
                   ++ decimal (Z.of_N n)))).
Proof.
  intros Ho Hh. cbv zeta. rewrite (buildRequest_host _ _ _ _ _ _ _ Ho Hh). split.
  - intros ->. cbn [to_string]. change (parseInt (js "null")) with (@None Z).
    now rewrite app_nil_r.
  - intros n Hn ->. cbn [to_string]. rewrite parseInt_decimal.
    unfold number_to_string. rewrite Z.abs_eq by lia.
    now rewrite (proj2 (Z.leb_le _ _) Hn).
Qed.

Lemma buildRequest_option rurl data exheaders exoptions k v :
  get k exoptions = Some v -> k <> js "__proto__" ->
  buildRequest rurl data exheaders exoptions !! k = Some v.
Proof.
  intros Hk Hne. unfold buildRequest. cbv zeta.
  rewrite assign_all_lookup, Hk. unfold jsstring_eqb.
  now rewrite bool_decide_eq_false_2.
Qed.

(** X11: the caller's extra options win over everything [buildRequest]
    has set; left alone, [uri] is the parsed URL and redirects are
    followed. *)
Theorem extra_options_override rurl data exheaders exoptions :
  let options := buildRequest rurl data exheaders exoptions in
  (forall k v, get k exoptions = Some v -> k <> js "__proto__" ->
               options !! k = Some v) /\
  (get (js "uri") exoptions = None ->
   options !! js "uri" = Some (OUri (url_parse rurl))) /\
  (get (js "followAllRedirects") exoptions = None ->
   options !! js "followAllRedirects" = Some (OVal (VBool true))).
Proof.
  cbv zeta. split; [|split].
  - apply buildRequest_option.
  - intros H. unfold buildRequest. cbv zeta. rewrite assign_all_lookup, H.
    change (jsstring_eqb (js "uri") (js "__proto__")) with false. cbv iota.
    destruct (is_string _ _);
      repeat (rewrite lookup_insert_ne by other_key); apply lookup_insert_eq.
  - intros H. unfold buildRequest. cbv zeta. rewrite assign_all_lookup, H.
    change (jsstring_eqb (js "followAllRedirects") (js "__proto__")) with false. cbv iota.
    destruct (is_string _ _);
      repeat (rewrite lookup_insert_ne by other_key); apply lookup_insert_eq.
Qed.

Lemma is_string_inv text x : is_string text x = true -> x = Some (VStr text).
Proof.
  destruct x as [[| | | |s|]|]; try discriminate. cbn. unfold jsstring_eqb.
  intros H. apply bool_decide_eq_true in H. now subst.
Qed.

Lemma connection_before_options (exheaders : option (gmap jsstring jsval)) :
  get (js "Connection") exheaders <> Some (VStr (js "keep-alive")) ->
  forall base : gmap jsstring jsval,
    base !! js "Connection" = Some (VStr (js "close")) ->
    is_string (js "keep-alive") (assign_all exheaders base !! js "Connection") = false.
Proof.
  intros Hc base Hb. destruct (is_string _ _) eqn:E; [exfalso|reflexivity].
  apply is_string_inv in E. rewrite assign_all_lookup in E.
  change (jsstring_eqb (js "Connection") (js "__proto__")) with false in E. cbv iota in E.
  destruct (get (js "Connection") exheaders) as [v|]; [now apply Hc|].
  rewrite Hb in E. discriminate E.
Qed.

Lemma buildRequest_no_body rurl data exheaders exoptions :
  get (js "body") exoptions = None ->
  get (js "Connection") exheaders <> Some (VStr (js "keep-alive")) ->
  buildRequest rurl data exheaders exoptions !! js "body" = None.
Proof.
  intros Hb Hc. unfold buildRequest. cbv zeta. rewrite assign_all_lookup, Hb.
  change (jsstring_eqb (js "body") (js "__proto__")) with false. cbv iota.
  rewrite (connection_before_options exheaders Hc).
  - repeat (rewrite lookup_insert_ne by other_key). apply lookup_empty.
  - destruct data; repeat (rewrite lookup_insert_ne by other_key);
      apply lookup_insert_eq.
Qed.

(** X12: the description carries the payload as [body] only under
    keep-alive: when the caller's headers do not set Connection to
    [keep-alive] and the extra options set no [body], the built request has
    no [body]. *)
Theorem no_body_without_keep_alive rurl data exheaders exoptions :
  get (js "body") exoptions = None ->
  get (js "Connection") exheaders <> Some (VStr (js "keep-alive")) ->
  buildRequest rurl data exheaders exoptions !! js "body" = None.
Proof. apply buildRequest_no_body. Qed.

Lemma buildRequest_connection_close rurl data exheaders exoptions :
  get (js "headers") exoptions = None -> get (js "Connection") exheaders = None ->
  header (js "Connection") (buildRequest rurl data exheaders exoptions)
  = Some (VStr (js "close")).
Proof.
  intros Ho Hh.
  read_header (js "Connection") Ho Hh; destruct data;
    repeat (rewrite lookup_insert_ne by other_key); apply lookup_insert_eq.
Qed.

(** X13: a default header that the caller's headers do not name keeps its
    default value: Connection [close], Accept-Encoding [none], Accept-Charset
    [utf-8], User-Agent [node-soap/] followed by the version. *)
Theorem default_headers_kept rurl data exheaders exoptions :
  get (js "headers") exoptions = None ->
  let options := buildRequest rurl data exheaders exoptions in
  (get (js "Connection") exheaders = None ->
   header (js "Connection") options = Some (VStr (js "close"))) /\
  (get (js "Accept-Encoding") exheaders = None ->
   header (js "Accept-Encoding") options = Some (VStr (js "none"))) /\
  (get (js "Accept-Charset") exheaders = None ->
   header (js "Accept-Charset") options = Some (VStr (js "utf-8"))) /\
  (get (js "User-Agent") exheaders = None ->
   header (js "User-Agent") options = Some (VStr (js "node-soap/" ++ VERSION))).
Proof.
  intros Ho. cbv zeta. repeat split; intros Hh.
  - now apply buildRequest_connection_close.
  - read_header (js "Accept-Encoding") Ho Hh; destruct data;
      repeat (rewrite lookup_insert_ne by other_key); apply lookup_insert_eq.
  - read_header (js "Accept-Charset") Ho Hh; destruct data;
      repeat (rewrite lookup_insert_ne by other_key); apply lookup_insert_eq.
  - read_header (js "User-Agent") Ho Hh; destruct data;
      repeat (rewrite lookup_insert_ne by other_key); apply lookup_insert_eq.
Qed.

End RequestDetails.

(** * The request as a whole *)

Section TransportProperties.

Variable unicode_upper : N -> N.
Variable VERSION : jsstring.
Variable url_parse : jsstring -> url_object.

(** The text of a Number beyond 2^53, as the engine prints it. *)
Variable number_text : Z -> jsstring.
Variable object_prop : nat -> jsstring -> option jsval.

Local Abbreviation buildRequest := (buildRequest VERSION url_parse number_text).
Local Abbreviation request := (request VERSION url_parse number_text object_prop).
Local Abbreviation on_complete := (on_complete unicode_upper).

Ltac third_key := let H := fresh in intros H; vm_compute in H; discriminate H.

Lemma connection_of_header options x :
  header (js "Connection") options = Some x ->
  connection_of object_prop (options !! js "headers") = Ok (Some x).
Proof.
  unfold header. destruct (options !! js "headers") as [[u|h|v]|]; try discriminate.
  cbn [connection_of]. now intros ->.
Qed.

Lemma body_with_keep_alive rurl data exheaders exoptions :
  get (js "body") exoptions = None ->
  get (js "Connection") exheaders = Some (VStr (js "keep-alive")) ->
  buildRequest rurl data exheaders exoptions !! js "body" = Some (OVal data).
Proof.
  intros Hb Hc. unfold buildRequest. cbv zeta. rewrite !assign_all_lookup, Hb, Hc.
  change (jsstring_eqb (js "body") (js "__proto__")) with false.
  change (jsstring_eqb (js "Connection") (js "__proto__")) with false. cbv iota.
  change (is_string (js "keep-alive") (Some (VStr (js "keep-alive")))) with true.
  cbv iota. apply lookup_insert_eq.
Qed.

(** X14: [request] hands the payload over exactly once.  When the extra
    options set neither [headers] nor [body]: under a Connection header
    [keep-alive] given by the caller the payload is the [body] of the
    description and nothing is written afterwards; otherwise the description
    has no [body] and the payload is written with [req.end]. *)
Theorem request_sends_payload_once rurl data exheaders exoptions :
  get (js "headers") exoptions = None -> get (js "body") exoptions = None ->
  (get (js "Connection") exheaders = Some (VStr (js "keep-alive")) ->
   fst (request rurl data exheaders exoptions) !! js "body" = Some (OVal data) /\
   snd (request rurl data exheaders exoptions) = Ok None) /\
  (get (js "Connection") exheaders <> Some (VStr (js "keep-alive")) ->
   fst (request rurl data exheaders exoptions) !! js "body" = None /\
   snd (request rurl data exheaders exoptions) = Ok (Some data)).
Proof.
  intros Hh Hb. split; intros Hc.
  - split; [now apply body_with_keep_alive|].
    unfold request. cbn [snd].
    rewrite (connection_of_header _ (VStr (js "keep-alive")));
      [reflexivity|].
    apply (buildRequest_header VERSION url_parse number_text); [exact Hh|exact Hc|third_key].
  - split; [now apply buildRequest_no_body|].
    unfold request. cbn [snd].
    destruct (get (js "Connection") exheaders) as [v|] eqn:E.
    + rewrite (connection_of_header _ v).
      * cbn [bind]. destruct (is_string (js "keep-alive") (Some v)) eqn:Es; [|reflexivity].
        apply is_string_inv in Es. congruence.
      * apply (buildRequest_header VERSION url_parse number_text); [exact Hh|exact E|third_key].
    + rewrite (connection_of_header _ (VStr (js "close"))); [reflexivity|].
      now apply buildRequest_connection_close.
Qed.

(** X15: extra options that set [headers] to [null] or [undefined] reach
    the executor as they are, and [request] then throws a TypeError when it
    reads [headers.Connection]: no payload is written. *)
Theorem request_throws_without_headers rurl data exheaders exoptions v :
  get (js "headers") exoptions = Some (OVal v) -> v = VNull \/ v = VUndefined ->
  fst (request rurl data exheaders exoptions) !! js "headers" = Some (OVal v) /\
  snd (request rurl data exheaders exoptions) = Throw TypeError.
Proof.
  intros Hh Hv.
  assert (H : buildRequest rurl data exheaders exoptions !! js "headers" = Some (OVal v)).
  { apply buildRequest_option; [exact Hh|third_key]. }
  split; [exact H|]. unfold request. cbn [snd]. rewrite H.
  now destruct Hv as [-> | ->].
Qed.

Lemma handleBinaries_outcome res s :
  handleBinaries unicode_upper res s = Throw TypeError \/
  exists b, handleBinaries unicode_upper res s = Ok (set_binaries res b).
Proof.
  unfold handleBinaries.
  destruct (regexp_exec unicode_upper bou_regex (content_type res)) as [bm|];
    [destruct (regexp_exec unicode_upper inc_regex s) as [im|]|]; cbn [bind]; eauto.
  destruct (handle_parts _ _ _) as [b|[]]; cbn [bind]; eauto.
Qed.

(** X16: what the completion function passes on.  An error of the
    executor goes to the callback unchanged and the response is not looked
    at; without an error, a body that is not a string goes to the callback
    with the response untouched; a textual body either makes the attachment
    parse throw, or reaches the callback as its envelope, with the
    attachment map on the response. *)
Theorem on_complete_outcomes err res body :
  (truthy err = true -> on_complete err res body = Ok (CallError err)) /\
  (truthy err = false -> (forall s, body <> VStr s) ->
   on_complete err res body = Ok (CallResult res body)) /\
  (truthy err = false -> forall s, body = VStr s ->
   on_complete err res body = Throw TypeError \/
   exists b, on_complete err res body
             = Ok (CallResult (set_binaries res b)
                     (VStr (extractEnvelope unicode_upper s)))).
Proof.
  unfold on_complete. split; [|split].
  - now intros ->.
  - intros -> Hb. destruct body; try reflexivity. now destruct (Hb s).
  - intros -> s ->. cbn [handleResponse].
    destruct (handleBinaries_outcome res s) as [-> | (b & ->)];
      [now left|right]. exists b. reflexivity.
Qed.

End TransportProperties.

(** * The further properties at sample inputs *)

(** X2, at a sample input. *)
Lemma extractEnvelope_without_envelope_witness :
  extractEnvelope ascii_table (js "503 Service Unavailable") = js "503 Service Unavailable".
Proof. apply (extractEnvelope_without_envelope ascii_table). vm_compute. reflexivity. Defined.

(** X3, at a sample input. *)
Lemma extractEnvelope_drops_surrounding_text_witness :
  extractEnvelope ascii_table
    (js "junk" ++ (js "<" ++ js "a" ++ js ":Envelope" ++ js ">X</b>" ++ closing_tag (js "a"))
     ++ js "more junk")
  = js "<" ++ js "a" ++ js ":Envelope" ++ js ">X</b>" ++ closing_tag (js "a").
Proof.
  apply (extractEnvelope_drops_surrounding_text ascii_table); vm_compute; reflexivity.
Defined.

(** X4, at a sample input. *)
Lemma handleBinaries_single_entry_witness :
  exists res',
    handleBinaries ascii_table (response_with related_XYZ) (mtom_body (js "att1")) = Ok res'
    /\ headers res' = headers (response_with related_XYZ).
Proof.
  eexists. split; [vm_compute; reflexivity|].
  eapply proj1.
  apply (handleBinaries_single_entry ascii_table (response_with related_XYZ)
           (mtom_body (js "att1"))).
  vm_compute. reflexivity.
Defined.

(** X5, at a sample input: the part names [att2], the body refers to
    [att1]. *)
Lemma handleBinaries_throws_on_unreferenced_part_witness :
  handleBinaries ascii_table (response_with related_XYZ) (mtom_body (js "att2"))
  = Throw TypeError.
Proof.
  eapply (handleBinaries_throws_on_unreferenced_part ascii_table).
  - vm_compute. reflexivity.
  - vm_compute. reflexivity.
  - vm_compute. right. left. reflexivity.
  - vm_compute. reflexivity.
  - intros E. vm_compute in E. discriminate E.
  - intros E. vm_compute in E. discriminate E.
  - vm_compute. reflexivity.
Defined.

(** X6, at a sample input. *)
Lemma handleBinaries_referenced_parts_witness :
  exists a,
    handleBinaries ascii_table (response_with related_XYZ) (mtom_body (js "att1"))
    = Ok (set_binaries (response_with related_XYZ)
            {| own := {[ js "att1" := a ]}; proto := None |}).
Proof.
  edestruct (handleBinaries_referenced_parts ascii_table (response_with related_XYZ)
               (mtom_body (js "att1"))) as (a & Ha).
  - vm_compute. reflexivity.
  - vm_compute. reflexivity.
  - intros E. vm_compute in E. discriminate E.
  - intros part pm Hin Hex. vm_compute in Hin.
    destruct Hin as [<-|[<-|[<-|[]]]]; vm_compute in Hex;
      try discriminate Hex; injection Hex as <-; vm_compute; reflexivity.
  - exists a. exact Ha.
Defined.

(** X8, at a sample input. *)
Lemma string_payload_headers_witness :
  header (js "Content-Length")
    (buildRequest version_sample url_parse_sample number_text_sample (js "http://h:8080/p")
       (VStr (js "<x/>")) None None)
  = Some (VNum 4).
Proof.
  apply (proj1 (string_payload_headers version_sample url_parse_sample number_text_sample
                  (js "http://h:8080/p") (js "<x/>") None None eq_refl eq_refl eq_refl)).
Defined.


(** X10, at a sample input. *)
Lemma host_header_port_witness :
  header (js "Host")
    (buildRequest version_sample url_parse_sample number_text_sample (js "http://h:8080/p") VNull None None)
  = Some (VStr (js "h:8080")).
Proof.
  destruct (host_header_port version_sample url_parse_sample number_text_sample
              (js "http://h:8080/p") VNull None None eq_refl eq_refl) as [_ H].
  apply (H 8080); [vm_compute; discriminate|reflexivity].
Defined.

(** X11, at a sample input. *)
Lemma extra_options_override_witness :
  buildRequest version_sample url_parse_sample number_text_sample (js "http://h:8080/p") VNull None
    (Some {[ js "timeout" := OVal (VNum 5000) ]}) !! js "timeout"
  = Some (OVal (VNum 5000)).
Proof.
  apply (proj1 (extra_options_override version_sample url_parse_sample number_text_sample
                  (js "http://h:8080/p") VNull None
                  (Some {[ js "timeout" := OVal (VNum 5000) ]}))).
  - vm_compute. reflexivity.
  - intros E. vm_compute in E. discriminate E.
Defined.

(** X12, at a sample input. *)
Lemma no_body_without_keep_alive_witness :
  buildRequest version_sample url_parse_sample number_text_sample (js "http://h:8080/p") (VStr (js "<x/>"))
    None None !! js "body"
  = None.
Proof.
  apply (no_body_without_keep_alive version_sample url_parse_sample number_text_sample);
    [reflexivity|intros E; discriminate E].
Defined.

(** X13, at a sample input. *)
Lemma default_headers_kept_witness :
  header (js "Connection")
    (buildRequest version_sample url_parse_sample number_text_sample (js "http://h:8080/p") VNull
       (Some {[ js "SOAPAction" := VStr (js "op") ]}) None)
  = Some (VStr (js "close")).
Proof.
  apply (proj1 (default_headers_kept version_sample url_parse_sample number_text_sample
                  (js "http://h:8080/p") VNull
                  (Some {[ js "SOAPAction" := VStr (js "op") ]}) None eq_refl)).
  vm_compute. reflexivity.
Defined.

(** X14, at a sample input. *)
Lemma request_sends_payload_once_witness :
  snd (request version_sample url_parse_sample number_text_sample (fun _ _ => None)
         (js "http://h:8080/p") (VStr (js "<x/>")) None None)
  = Ok (Some (VStr (js "<x/>"))).
Proof.
  destruct (request_sends_payload_once version_sample url_parse_sample number_text_sample (fun _ _ => None)
              (js "http://h:8080/p") (VStr (js "<x/>")) None None eq_refl eq_refl)
    as [_ H].
  apply H. intros E. discriminate E.
Defined.

(** X15, at a sample input. *)
Lemma request_throws_without_headers_witness :
  snd (request version_sample url_parse_sample number_text_sample (fun _ _ => None)
         (js "http://h:8080/p") VNull None (Some {[ js "headers" := OVal VNull ]}))
  = Throw TypeError.
Proof.
  eapply proj2.
  apply (request_throws_without_headers version_sample url_parse_sample number_text_sample
           (fun _ _ => None) (js "http://h:8080/p") VNull None
           (Some {[ js "headers" := OVal VNull ]}) VNull);
    [vm_compute; reflexivity|left; reflexivity].
Defined.

(** X16, at a sample input: the error of the executor is passed on, though
    the body would make the attachment parse throw. *)
Lemma on_complete_outcomes_witness :
  on_complete ascii_table (VStr (js "ECONNRESET")) (response_with related_XYZ)
    (VStr (mtom_body (js "att2")))
  = Ok (CallError (VStr (js "ECONNRESET"))).
Proof.
  apply (proj1 (on_complete_outcomes ascii_table (VStr (js "ECONNRESET"))
                  (response_with related_XYZ) (VStr (mtom_body (js "att2"))))).
  reflexivity.
Defined.
